(** * Internship matcher: the scoring and ranking of [match_top]

    A shallow embedding of the matching endpoint of [main.py] (with the
    request and document models of [schemas.py]) and the proofs of its
    documented properties.

    Python's [float] is IEEE 754 binary64.  Every arithmetic operation of
    the scoring function returns the exact rational result rounded to the
    nearest representable number, ties to even; a float is therefore
    modelled by the rational number it denotes, and each operation by the
    exact operation followed by the rounding [RN]. *)

From Stdlib Require Import ZArith QArith Qround Qabs Lia Lqa.
From Stdlib Require Import Ascii Sorted Permutation.
From Stdlib Require PrimFloat FloatOps.
From stdpp Require Import base decidable list gmap strings pretty sorting.

Local Open Scope Z_scope.

(** ** Binary64 arithmetic on rationals *)

Module Binary64.

(** Exponent of the smallest positive subnormal number, [2^-1074], and the
    number of bits of a significand. *)
Definition emin : Z := -1074.
Definition prec : Z := 53.

(** Round to the nearest integer, ties to the even one. *)
Definition rhe (x : Q) : Z :=
  let f := Qfloor x in
  match (x - inject_Z f ?= 1 # 2)%Q with
  | Lt => f
  | Gt => f + 1
  | Eq => if Z.even f then f else f + 1
  end.

(** Every finite binary64 number is a multiple of [2^emin]: [to_grid x] is
    [x] counted in that unit. *)
Definition grid : Q := inject_Z (2 ^ (- emin)).
Definition to_grid (x : Q) : Q := (x * grid)%Q.

(** [2^-53], half the gap between 1 and the float below it. *)
Definition eps : Q := 1 # 9007199254740992.

(** The number of low bits of the grid that a significand of [prec] bits
    cannot hold at the magnitude of [t]; 0 in the subnormal range. *)
Definition shift (t : Q) : Z :=
  Z.max 0 (Z.log2 (Qfloor (Qabs t)) - (prec - 1)).

(** Rounding on the grid: keep [prec] significant bits. *)
Definition round_grid (t : Q) : Z :=
  let j := shift t in
  rhe (t / inject_Z (2 ^ j)) * 2 ^ j.

(** [RN x]: the binary64 number nearest to [x], ties to even (the
    exponent range is unbounded above: nothing computed here exceeds 1). *)
Definition RN (x : Q) : Q :=
  Qred (inject_Z (round_grid (to_grid x)) / grid).

(** Float operations: the exact result, rounded. *)
Definition fadd (x y : Q) : Q := RN (x + y).
Definition fmul (x y : Q) : Q := RN (x * y).

(** [a / b] on Python integers is the correctly rounded quotient. *)
Definition true_div (a b : Z) : Q := RN (inject_Z a / inject_Z b).

(** A decimal literal [n / 10^k] denotes the nearest binary64 number. *)
Definition literal (n : Z) (k : nat) : Q :=
  RN (inject_Z n / inject_Z (10 ^ Z.of_nat k)).

(** [round(x, ndigits)] on a float, for [ndigits >= 0]: the decimal with
    [ndigits] fractional digits nearest to the exact value of [x] (ties to
    even), converted back to the nearest binary64 number. *)
Definition py_round (x : Q) (ndigits : nat) : Q :=
  let p := inject_Z (10 ^ Z.of_nat ndigits) in
  RN (inject_Z (rhe (x * p)) / p).

(** The rational that a finite float of the kernel denotes, to compare
    the operations above with the hardware's. *)
Definition float_value (f : PrimFloat.float) : Q :=
  match FloatOps.Prim2SF f with
  | SpecFloat.S754_finite s m e =>
      let v :=
        if 0 <=? e then inject_Z (Z.pos m * 2 ^ e)
        else (inject_Z (Z.pos m) / inject_Z (2 ^ (- e)))%Q in
      Qred (if s then - v else v)%Q
  | _ => 0%Q
  end.

End Binary64.

(** ** The data model of [schemas.py] *)

(** [Internship]: the stored posting.  Only [skills] takes part in
    scoring. *)
Module Internship.
Record t : Type := Build {
  title : string;
  company : string;
  description : option string;
  location : option string;
  stipend : option string;
  skills : list string
}.
End Internship.

(** A document of the [internship] collection as [find] returns it: a
    dict that the endpoint reads with [get].  The collection is written
    from [Internship] models, so [title] and [company] are present; a key
    read with a default is optional here. *)
Module Doc.
Record t : Type := Build {
  title : string;
  company : string;
  description : option string;
  location : option string;
  stipend : option string;
  skills : option (list string)
}.
End Doc.

(** [MatchResult]: a score with the posting it belongs to. *)
Module MatchResult.
Record t : Type := Build {
  score : Q;
  internship : Internship.t
}.
End MatchResult.

(** [MatchRequest]: [limit] is a plain [int] with default 5, and no
    validator restricts its sign. *)
Module MatchRequest.
Record t : Type := Build {
  email : string;
  limit : Z
}.
Definition default_limit : Z := 5.
End MatchRequest.

(** A document of the [student] collection, as far as the endpoint reads
    it. *)
Module StudentDoc.
Record t : Type := Build {
  email : string;
  preferences : option (list string)
}.
End StudentDoc.

(** The two collections the endpoint reads. *)
Record Database : Type := {
  student : list StudentDoc.t;
  internship : list Doc.t
}.

Inductive HTTPException : Type :=
  | HTTPError (status_code : nat) (detail : string).

(** ** Python list primitives *)

#[global] Instance Qlt_decision (x y : Q) : Decision (x < y)%Q :=
  match Qlt_le_dec x y with
  | left H => left H
  | right H => right (Qle_not_lt _ _ H)
  end.

#[global] Instance Qeq_decision (x y : Q) : Decision (x == y)%Q := Qeq_dec x y.

(** [l[:stop]]: a negative [stop] counts from the end of the list. *)
Definition slice_to {A : Type} (l : list A) (stop : Z) : list A :=
  if 0 <=? stop then take (Z.to_nat stop) l
  else take (Z.to_nat (Z.of_nat (length l) + stop)) l.

(** [l.sort(key=key, reverse=True)]: descending by key and stable, also
    under [reverse] (entries with equal keys keep their order).  An entry
    is placed in front of the first one whose key is not greater. *)
Section SortDesc.
Context {A : Type} (key : A → Q).

Fixpoint insert_desc (x : A) (l : list A) : list A :=
  match l with
  | [] => [x]
  | y :: l' =>
      if Qlt_le_dec (key x) (key y) then y :: insert_desc x l'
      else x :: y :: l'
  end.

Definition sort_desc (l : list A) : list A := foldr insert_desc [] l.

(** [descending a b]: [a] may stand before [b] in a list sorted by
    decreasing key. *)
Definition descending (a b : A) : Prop := (key b <= key a)%Q.
End SortDesc.

(** [str.lower] on ASCII text. *)
Definition ascii_lower (c : ascii) : ascii :=
  let n := nat_of_ascii c in
  if ((65 <=? n) && (n <=? 90))%nat then ascii_of_nat (n + 32) else c.

Fixpoint str_lower (s : string) : string :=
  match s with
  | EmptyString => EmptyString
  | String c s' => String (ascii_lower c) (str_lower s')
  end.

(** ** The matcher *)

Section Matcher.
Import Binary64.

(** [str.lower]: the properties below hold for any case folding, the
    full Unicode one included. *)
Variable lower : string → string.

Definition get_skills (intern : Doc.t) : list string :=
  default [] (Doc.skills intern).

(** The closure [score] of [match_top]; [user_prefs] is the variable it
    captures, already in lower case. *)
Definition score (user_prefs : list string) (intern : Doc.t) : Q :=
  let skills := map lower (get_skills intern) in
  match skills with
  | [] => 0%Q
  | _ :: _ =>
      let overlap : nat :=
        size ((list_to_set skills : gset string) ∩ list_to_set user_prefs) in
      let pref_cov : Q :=
        match user_prefs with
        | [] => 0%Q
        | _ :: _ =>
            true_div (Z.of_nat overlap)
              (Z.max 1 (Z.of_nat (size (list_to_set user_prefs : gset string))))
        end in
      let skill_cov : Q :=
        true_div (Z.of_nat overlap)
          (Z.max 1 (Z.of_nat (size (list_to_set skills : gset string)))) in
      py_round (fadd (fmul (literal 6 1) pref_cov)
                     (fmul (literal 4 1) skill_cov)) 4
  end.

Definition to_internship (i : Doc.t) : Internship.t :=
  Internship.Build (Doc.title i) (Doc.company i) (Doc.description i)
    (Doc.location i) (Doc.stipend i) (get_skills i).

(** The list [scored], before it is sorted. *)
Definition scored (user_prefs : list string) (internships : list Doc.t)
  : list MatchResult.t :=
  map (λ i, MatchResult.Build (score user_prefs i) (to_internship i))
      internships.

(** [scored] after [sort], restricted to the positive scores: the
    comprehension [[s for s in scored if s.score > 0]]. *)
Definition ranked (user_prefs : list string) (internships : list Doc.t)
  : list MatchResult.t :=
  filter (λ s, (0 < MatchResult.score s)%Q)
    (sort_desc MatchResult.score (scored user_prefs internships)).

(** The computation of [match_top] once the student and the catalog are
    read: lower the preferences, score, sort, filter, slice. *)
Definition rank (preferences : list string) (internships : list Doc.t)
    (limit : Z) : list MatchResult.t :=
  let user_prefs := map lower preferences in
  slice_to (ranked user_prefs internships) limit.

Definition match_top (db : option Database) (req : MatchRequest.t)
  : HTTPException + list MatchResult.t :=
  match db with
  | None => inl (HTTPError 500 "Database not configured")
  | Some d =>
      match
        find (λ u, bool_decide (StudentDoc.email u = MatchRequest.email req))
             (student d)
      with
      | None => inl (HTTPError 404 "User not found")
      | Some user =>
          inr (rank (default [] (StudentDoc.preferences user))
                    (internship d) (MatchRequest.limit req))
      end
  end.

(** The scoring rule as the specification words it, on the two
    normalized sets. *)
Definition spec_score (P S : gset string) : Q :=
  let overlap := Z.of_nat (size (S ∩ P)) in
  let pref_coverage :=
    if decide (P = ∅) then 0%Q
    else true_div overlap (Z.max 1 (Z.of_nat (size P))) in
  let skill_coverage := true_div overlap (Z.max 1 (Z.of_nat (size S))) in
  py_round (fadd (fmul (literal 6 1) pref_coverage)
                 (fmul (literal 4 1) skill_coverage)) 4.

End Matcher.

(** ** Concrete catalogs *)

(** The postings of [seed_internships]. *)
Definition data_analyst : Doc.t :=
  Doc.Build "Data Analyst Intern" "Insight Labs"
    (Some "Work with data pipelines and dashboards") (Some "Remote")
    (Some "₹15,000") (Some ["python"; "sql"; "pandas"; "analytics"]).

Definition frontend_developer : Doc.t :=
  Doc.Build "Frontend Developer Intern" "WebWorks"
    (Some "Build UI components with React") (Some "Delhi")
    (Some "₹12,000") (Some ["react"; "javascript"; "css"; "ui"]).

Definition cybersecurity : Doc.t :=
  Doc.Build "Cybersecurity Intern" "SecureNet"
    (Some "Assist in vulnerability assessments") (Some "Bangalore")
    (Some "₹18,000") (Some ["security"; "network"; "linux"; "python"]).

Definition machine_learning : Doc.t :=
  Doc.Build "Machine Learning Intern" "AI Forge"
    (Some "Model training and experimentation") (Some "Remote")
    (Some "₹20,000") (Some ["ml"; "python"; "scikit"; "numpy"]).

Definition backend_developer : Doc.t :=
  Doc.Build "Backend Developer Intern" "CloudStack"
    (Some "APIs and microservices") (Some "Hyderabad")
    (Some "₹17,000") (Some ["python"; "fastapi"; "mongodb"; "docker"]).

Definition samples : list Doc.t :=
  [data_analyst; frontend_developer; cybersecurity; machine_learning;
   backend_developer].

(** The first seeded posting with its skills in another order, another
    case and with a repetition. *)
Definition data_analyst_variant : Doc.t :=
  Doc.Build "Data Analyst Intern" "Insight Labs"
    (Some "Work with data pipelines and dashboards") (Some "Remote")
    (Some "₹15,000") (Some ["Analytics"; "SQL"; "pandas"; "Python"; "sql"]).

(** A posting without skills. *)
Definition no_skills : Doc.t :=
  Doc.Build "Office Intern" "Acme" None None None (Some []).

(** A student with 40000 preferences, the decimal numerals of 0 .. 39999,
    and a posting with 40000 skills of which only ["0"] is one of them. *)
Definition crowded_prefs : list string := pretty <$> seqZ 0 40000.

Definition crowded_intern : Doc.t :=
  Doc.Build "Generalist Intern" "Everything Inc" None None None
    (Some (pretty <$> (0 :: seqZ 40000 39999))).

(** ** Python string methods used by [signin] *)

(** [c in s] for a character [c]. *)
Fixpoint contains (c : ascii) (s : string) : bool :=
  match s with
  | EmptyString => false
  | String a s' => bool_decide (a = c) || contains c s'
  end.

(** [s.split(sep)] for a separator of one character: the piece before the
    first separator and the pieces after it. *)
Fixpoint split_go (sep : ascii) (s : string) : string * list string :=
  match s with
  | EmptyString => (EmptyString, [])
  | String c s' =>
      let '(w, ws) := split_go sep s' in
      if bool_decide (c = sep) then (EmptyString, w :: ws) else (String c w, ws)
  end.

Definition split (sep : ascii) (s : string) : list string :=
  let '(w, ws) := split_go sep s in w :: ws.

(** [sep.join(l)]. *)
Fixpoint join (sep : string) (l : list string) : string :=
  match l with
  | [] => EmptyString
  | [x] => x
  | x :: l' => x +:+ sep +:+ join sep l'
  end.

(** [str.isspace] of an ASCII character: tab to carriage return, the four
    separators 28 to 31, and the space. *)
Definition ascii_isspace (c : ascii) : bool :=
  let n := nat_of_ascii c in
  ((9 <=? n) && (n <=? 13) || (28 <=? n) && (n <=? 32))%nat.

Section Strip.
(** The whitespace test of [str.strip]; the properties hold for any. *)
Variable isspace : ascii → bool.

Fixpoint lstrip (s : string) : string :=
  match s with
  | EmptyString => EmptyString
  | String c s' => if isspace c then lstrip s' else s
  end.

Fixpoint rstrip (s : string) : string :=
  match s with
  | EmptyString => EmptyString
  | String c s' =>
      match rstrip s' with
      | EmptyString => if isspace c then EmptyString else String c EmptyString
      | t => String c t
      end
  end.

(** [s.strip()]. *)
Definition strip (s : string) : string := rstrip (lstrip s).

(** The preference list of [signin]:
    [[p.strip() for p in preferences.split(",") if p.strip()]] when
    [preferences] is given and not empty, the empty list otherwise. *)
Definition parse_preferences (preferences : option string) : list string :=
  match preferences with
  | Some (String _ _ as s) =>
      p ← split "," s;
      if bool_decide (strip p ≠ EmptyString) then [strip p] else []
  | _ => []
  end.
End Strip.

(** ** Paths of uploaded files *)

Definition startswith (c : ascii) (s : string) : bool :=
  match s with
  | String a _ => bool_decide (a = c)
  | EmptyString => false
  end.

Fixpoint endswith (c : ascii) (s : string) : bool :=
  match s with
  | EmptyString => false
  | String a EmptyString => bool_decide (a = c)
  | String _ s' => endswith c s'
  end.

(** [os.path.join(a, b)] of [posixpath]. *)
Definition path_join (a b : string) : string :=
  if startswith "/" b then b
  else if bool_decide (a = EmptyString) || endswith "/" a then a +:+ b
  else a +:+ "/" +:+ b.

(** [os.path.basename(p)]: what follows the last slash. *)
Definition basename (p : string) : string :=
  default EmptyString (last (split "/" p)).

(** ** The models and documents of [signin] *)

(** [schemas.Student]. *)
Module Student.
Record t : Type := Build {
  name : string;
  email : string;
  password_hash : string;
  preferences : list string;
  resume_url : option string;
  role : string
}.
End Student.

(** A document of the [student] collection with the keys that [signin]
    reads or writes; a key may be absent, and [resume_url] may be stored
    as [None]. *)
Module User.
Record t : Type := Build {
  id : string;
  name : option string;
  email : string;
  password_hash : option string;
  preferences : option (list string);
  resume_url : option (option string);
  updated_at : option Z
}.
End User.

(** What [match_top] reads of such a document. *)
Definition student_view (u : User.t) : StudentDoc.t :=
  StudentDoc.Build (User.email u) (User.preferences u).

(** [AuthResponse] of [main.py]. *)
Module AuthResponse.
Record t : Type := Build {
  name : string;
  email : string;
  preferences : list string;
  resume_url : option string
}.
End AuthResponse.

(** An uploaded file: its name and the bytes that [read] returns. *)
Module UploadFile.
Record t : Type := Build {
  filename : string;
  content : string
}.
End UploadFile.

(** The dict [update] of [signin], before [updated_at] is added. *)
Module Update.
Record t : Type := Build {
  name : option string;
  preferences : option (list string);
  resume_url : option string
}.

Definition is_empty (u : t) : bool :=
  match name u, preferences u, resume_url u with
  | None, None, None => true
  | _, _, _ => false
  end.
End Update.

(** [{"$set": update}] on a document, and [user.update(update)] on the
    dict read from it, with [updated_at] set to the clock reading. *)
Definition set_fields (upd : Update.t) (now : Z) (u : User.t) : User.t :=
  User.Build (User.id u)
    (match Update.name upd with Some n => Some n | None => User.name u end)
    (User.email u)
    (User.password_hash u)
    (match Update.preferences upd with
     | Some p => Some p
     | None => User.preferences u
     end)
    (match Update.resume_url upd with
     | Some r => Some (Some r)
     | None => User.resume_url u
     end)
    (Some now).

(** [{"$set": {"resume_url": url}}]. *)
Definition set_resume_url (url : string) (u : User.t) : User.t :=
  User.Build (User.id u) (User.name u) (User.email u) (User.password_hash u)
    (User.preferences u) (Some (Some url)) (User.updated_at u).

(** [update_one({"_id": id}, {"$set": ...})]: the first document with
    that id is changed, if there is one. *)
Fixpoint update_one (users : list User.t) (id : string) (f : User.t → User.t)
  : list User.t :=
  match users with
  | [] => []
  | u :: users' =>
      if bool_decide (User.id u = id) then f u :: users'
      else u :: update_one users' id f
  end.

(** The truth value of an optional string: given and not empty. *)
Definition truthy (s : option string) : bool :=
  match s with
  | Some (String _ _) => true
  | _ => false
  end.

(** How a request ends: with a response, with a raised [HTTPException],
    or with an exception of a collaborator that the handler does not
    catch. *)
Inductive Reply (A : Type) : Type :=
  | Ok (body : A)
  | Raised (e : HTTPException)
  | Unhandled.
Arguments Ok {A} body.
Arguments Raised {A} e.
Arguments Unhandled {A}.

Section Signin.
(** The collaborators of [signin]: the whitespace test of [str.strip],
    the password context, the file system under the upload directory
    ([None]: the write raises), [create_document] of the [database]
    module, which returns the id of the stored document, and the working
    directory of the process. *)
Variable isspace : ascii → bool.
Variable hash_password : string → string.
Variable verify_password : string → string → bool.
Variable Files : Type.
Variable write_file : Files → string → string → option Files.
Variable create_document : list User.t → Student.t → list User.t * string.
Variable cwd : string.

Definition UPLOAD_DIR : string := path_join cwd "uploads".

(** The upload block of [signin]: write the file as [<id>_<filename>]
    under the upload directory and name it by its public URL. *)
Definition store_resume (files : Files) (owner_id : string)
    (resume : UploadFile.t) : option (Files * string) :=
  let file_path :=
    path_join UPLOAD_DIR (owner_id +:+ "_" +:+ UploadFile.filename resume) in
  match write_file files file_path (UploadFile.content resume) with
  | None => None
  | Some files' => Some (files', "/uploads/" +:+ basename file_path)
  end.

(** The end of the branch for an existing user: apply the update, if
    any, to the collection and to the dict [user], and answer from the
    dict. *)
Definition answer_existing (users : list User.t) (user : User.t) (now : Z)
    (email : string) (name : option string) (pref_list : list string)
    (resume_url : option string) (update : Update.t)
  : Reply AuthResponse.t * list User.t :=
  let '(users', user') :=
    if Update.is_empty update then (users, user)
    else (update_one users (User.id user) (set_fields update now),
          set_fields update now user) in
  (Ok (AuthResponse.Build
         (default (default EmptyString name) (User.name user'))
         email
         (default pref_list (User.preferences user'))
         (default resume_url (User.resume_url user'))),
   users').

(** [signin] on a configured database: the reply, the collection and the
    files afterwards. *)
Definition signin_users (users : list User.t) (files : Files) (now : Z)
    (email password : string) (name preferences : option string)
    (resume : option UploadFile.t)
  : Reply AuthResponse.t * list User.t * Files :=
  let pref_list := parse_preferences isspace preferences in
  match find (λ u, bool_decide (User.email u = email)) users with
  | Some user =>
      if negb (verify_password password
                 (default EmptyString (User.password_hash user)))
      then (Raised (HTTPError 401 "Invalid email or password"), users, files)
      else
        let upd_name :=
          if truthy name && bool_decide (name ≠ User.name user) then name
          else None in
        let upd_prefs :=
          match pref_list with [] => None | _ :: _ => Some pref_list end in
        match resume with
        | None =>
            (answer_existing users user now email name pref_list None
               (Update.Build upd_name upd_prefs None), files)
        | Some r =>
            match store_resume files (User.id user) r with
            | None => (Unhandled, users, files)
            | Some (files', url) =>
                (answer_existing users user now email name pref_list
                   (Some url) (Update.Build upd_name upd_prefs (Some url)),
                 files')
            end
        end
  | None =>
      if negb (truthy name)
      then (Raised (HTTPError 400 "Name is required for new users"),
            users, files)
      else
        let name' := default EmptyString name in
        let password_hash := hash_password password in
        let new_user :=
          Student.Build name' email password_hash pref_list None "student" in
        let '(users1, user_id) := create_document users new_user in
        match resume with
        | None =>
            (Ok (AuthResponse.Build name' email pref_list None), users1, files)
        | Some r =>
            match store_resume files user_id r with
            | None => (Unhandled, users1, files)
            | Some (files', url) =>
                (Ok (AuthResponse.Build name' email pref_list (Some url)),
                 update_one users1 user_id (set_resume_url url), files')
            end
        end
  end.

Definition signin (db : option (list User.t)) (files : Files) (now : Z)
    (email password : string) (name preferences : option string)
    (resume : option UploadFile.t)
  : Reply AuthResponse.t * option (list User.t) * Files :=
  match db with
  | None => (Raised (HTTPError 500 "Database not configured"), None, files)
  | Some users =>
      let '(reply, users', files') :=
        signin_users users files now email password name preferences resume in
      (reply, Some users', files')
  end.

End Signin.

(** ** The diagnostic endpoint [test_database] *)

(** What [test_database] asks of the database handle: its attribute
    [name], if it has one, and [list_collection_names()], which returns
    the names or raises an exception with a message. *)
Module DbHandle.
Record t : Type := Build {
  name : option string;
  list_collection_names : string + list string
}.
End DbHandle.

(** The dict [response]. *)
Module TestResponse.
Record t : Type := Build {
  backend : string;
  database : string;
  database_url : option string;
  database_name : option string;
  connection_status : string;
  collections : list string
}.

Definition set_database (v : string) (r : t) : t :=
  Build (backend r) v (database_url r) (database_name r)
    (connection_status r) (collections r).
Definition set_database_url (v : string) (r : t) : t :=
  Build (backend r) (database r) (Some v) (database_name r)
    (connection_status r) (collections r).
Definition set_database_name (v : string) (r : t) : t :=
  Build (backend r) (database r) (database_url r) (Some v)
    (connection_status r) (collections r).
Definition set_connection_status (v : string) (r : t) : t :=
  Build (backend r) (database r) (database_url r) (database_name r) v
    (collections r).
Definition set_collections (v : list string) (r : t) : t :=
  Build (backend r) (database r) (database_url r) (database_name r)
    (connection_status r) v.
End TestResponse.

(** [test_database], given the handle [db] and [os.getenv]. *)
Definition test_database (db : option DbHandle.t)
    (getenv : string → option string) : TestResponse.t :=
  let response :=
    TestResponse.Build "✅ Running" "❌ Not Available" None None
      "Not Connected" [] in
  let response :=
    match db with
    | Some h =>
        let response := TestResponse.set_database "✅ Available" response in
        let response :=
          TestResponse.set_database_name
            (default "✅ Connected" (DbHandle.name h)) response in
        let response :=
          TestResponse.set_connection_status "Connected" response in
        match DbHandle.list_collection_names h with
        | inr names =>
            let response :=
              TestResponse.set_collections (take 10 names) response in
            TestResponse.set_database "✅ Connected & Working" response
        | inl e =>
            TestResponse.set_database
              ("⚠️ Connected but Error: " +:+ String.substring 0 50 e)
              response
        end
    | None =>
        TestResponse.set_database "⚠️ Available but not initialized" response
    end in
  let response :=
    TestResponse.set_database_url
      (if truthy (getenv "DATABASE_URL") then "✅ Set" else "❌ Not Set")
      response in
  TestResponse.set_database_name
    (if truthy (getenv "DATABASE_NAME") then "✅ Set" else "❌ Not Set")
    response.

(** ** Seeding the catalog *)

(** The models that [seed_internships] stores. *)
Definition sample_models : list Internship.t := to_internship <$> samples.

Section Seed.
(** [create_document("internship", ·)] of the [database] module, as a
    function on the collection. *)
Variable create_internship : list Doc.t → Internship.t → list Doc.t.

(** [seed_internships]: the reply, as status and message, and the
    collection afterwards. *)
Definition seed_internships (db : option (list Doc.t))
  : (HTTPException + string * string) * option (list Doc.t) :=
  match db with
  | None => (inl (HTTPError 500 "Database not configured"), None)
  | Some col =>
      if (0 <? length col)%nat
      then (inr ("ok", "Internships already seeded"), Some col)
      else (inr ("ok", "Seeded internships"),
            Some (foldl create_internship col sample_models))
  end.
End Seed.


(** ** A concrete deployment, for the examples *)

(** Stand-ins for the collaborators of [signin]: a password context, a
    file system that stores every write, and a [create_document] that
    appends the document under a fresh id. *)
Definition example_hash (password : string) : string := "hash:" +:+ password.

Definition example_verify (password hash : string) : bool :=
  bool_decide (hash = example_hash password).

Definition example_write (files : gmap string string) (path content : string)
  : option (gmap string string) :=
  Some (<[path := content]> files).

Definition example_create (users : list User.t) (s : Student.t)
  : list User.t * string :=
  let id := "u" +:+ pretty (length users) in
  (users ++ [User.Build id (Some (Student.name s)) (Student.email s)
               (Some (Student.password_hash s)) (Some (Student.preferences s))
               (Some (Student.resume_url s)) None],
   id).

Definition asha : User.t :=
  User.Build "u0" (Some "Asha") "asha@example.com"
    (Some (example_hash "s3cret")) (Some ["react"]) (Some None) None.

Definition ravi : User.t :=
  User.Build "u1" (Some "Ravi") "ravi@example.com"
    (Some (example_hash "pw")) None (Some None) None.

Definition example_users : list User.t := [asha; ravi].

Definition example_db : Database :=
  {| student := student_view <$> example_users; internship := samples |}.

Definition example_cv : UploadFile.t := UploadFile.Build "cv.pdf" "%PDF-1.7".

Definition example_now : Z := 1700000000.

(** Asha signs in with a new name, two preferences and a resume: her
    document, the response and the files afterwards. *)
Definition asha_updated : User.t :=
  User.Build "u0" (Some "Asha K") "asha@example.com"
    (Some (example_hash "s3cret")) (Some ["Python"; "sql"])
    (Some (Some "/uploads/u0_cv.pdf")) (Some example_now).

Definition example_body : AuthResponse.t :=
  AuthResponse.Build "Asha K" "asha@example.com" ["Python"; "sql"]
    (Some "/uploads/u0_cv.pdf").

Definition example_files : gmap string string :=
  {[ "/srv/app/uploads/u0_cv.pdf" := "%PDF-1.7" ]}.

(** A file system on which every write fails. *)
Definition example_write_fails (files : gmap string string)
    (path content : string) : option (gmap string string) :=
  None.

(** The model of a new user Nina. *)
Definition nina : Student.t :=
  Student.Build "Nina" "nina@example.com" (example_hash "pw2") ["ml"] None
    "student".

(** A handle that lists twelve collections, one whose listing fails, and
    an environment with only [DATABASE_URL] set. *)
Definition example_handle : DbHandle.t :=
  DbHandle.Build (Some "interindia")
    (inr ["student"; "internship"; "c3"; "c4"; "c5"; "c6"; "c7"; "c8"; "c9";
          "c10"; "c11"; "c12"]).

Definition example_getenv (key : string) : option string :=
  if bool_decide (key = "DATABASE_URL") then Some "mongodb://localhost"
  else if bool_decide (key = "DATABASE_NAME") then Some ""
  else None.

(** A [create_document] that appends the stored form of the model. *)
Definition example_create_internship (col : list Doc.t) (m : Internship.t)
  : list Doc.t :=
  col ++ [Doc.Build (Internship.title m) (Internship.company m)
            (Internship.description m) (Internship.location m)
            (Internship.stipend m) (Some (Internship.skills m))].

(** ** Rounding: the facts the scoring needs *)

Module Binary64Facts.
Import Binary64.
Local Open Scope Q_scope.

Lemma floor_spec (x : Q) :
  inject_Z (Qfloor x) <= x ∧ x < inject_Z (Qfloor x) + 1.
Proof.
  split; [apply Qfloor_le|].
  pose proof (Qlt_floor x) as H. rewrite inject_Z_plus in H. exact H.
Qed.

Lemma floor_unique (x : Q) (n : Z) :
  inject_Z n <= x → x < inject_Z n + 1 → Qfloor x = n.
Proof.
  intros Hl Hu. destruct (floor_spec x) as [Fl Fu].
  assert (inject_Z n < inject_Z (Qfloor x) + 1) as H1 by lra.
  assert (inject_Z (Qfloor x) < inject_Z n + 1) as H2 by lra.
  change 1 with (inject_Z 1) in H1, H2.
  rewrite <- inject_Z_plus, <- Zlt_Qlt in H1, H2. lia.
Qed.

(** [rhe x] is one of the two integers around [x]. *)
Lemma rhe_cases (x : Q) :
  let d := x - inject_Z (Qfloor x) in
  (rhe x = Qfloor x ∧ d <= 1 # 2) ∨
  (rhe x = (Qfloor x + 1)%Z ∧ 1 # 2 <= d).
Proof.
  intros d. unfold rhe. fold d.
  destruct (Qcompare_spec d (1 # 2)) as [E | L | G].
  - destruct (Z.even (Qfloor x)); [left | right]; split; try done; lra.
  - left. split; [done | lra].
  - right. split; [done | lra].
Qed.

(** The rounding error is at most one half. *)
Lemma rhe_error (x : Q) :
  inject_Z (rhe x) - (1 # 2) <= x ∧ x <= inject_Z (rhe x) + (1 # 2).
Proof.
  destruct (floor_spec x) as [Fl Fu].
  destruct (rhe_cases x) as [[-> H] | [-> H]]; cbv zeta in H;
    rewrite ?inject_Z_plus; change (inject_Z 1) with 1; lra.
Qed.

Lemma rhe_Z (n : Z) : rhe (inject_Z n) = n.
Proof.
  unfold rhe. rewrite Qfloor_Z.
  destruct (Qcompare_spec (inject_Z n - inject_Z n) (1 # 2)) as [E | L | G];
    [lra | done | lra].
Qed.

(** An integer within less than one half of [x] is its rounding. *)
Lemma rhe_unique (x : Q) (n : Z) :
  inject_Z n - (1 # 2) < x → x < inject_Z n + (1 # 2) → rhe x = n.
Proof.
  intros Hl Hu. pose proof (rhe_error x) as [El Eu].
  assert (inject_Z n < inject_Z (rhe x) + 1) as H1 by lra.
  assert (inject_Z (rhe x) < inject_Z n + 1) as H2 by lra.
  change 1 with (inject_Z 1) in H1, H2.
  rewrite <- inject_Z_plus, <- Zlt_Qlt in H1, H2. lia.
Qed.

Lemma rhe_mono (x y : Q) : x <= y → (rhe x <= rhe y)%Z.
Proof.
  intros Hxy. pose proof (Qfloor_resp_le _ _ Hxy) as Hf.
  destruct (Z.eq_dec (Qfloor x) (Qfloor y)) as [E | N].
  - unfold rhe. rewrite E.
    destruct (Qcompare_spec (x - inject_Z (Qfloor y)) (1 # 2)) as [Ex | Lx | Gx];
    destruct (Qcompare_spec (y - inject_Z (Qfloor y)) (1 # 2)) as [Ey | Ly | Gy];
      try destruct (Z.even (Qfloor y)); try lia; lra.
  - destruct (rhe_cases x) as [[-> _] | [-> _]];
    destruct (rhe_cases y) as [[-> _] | [-> _]]; lia.
Qed.

Lemma rhe_proper (x y : Q) : x == y → rhe x = rhe y.
Proof.
  intros E. apply Z.le_antisymm; apply rhe_mono; lra.
Qed.

(** *** Rounding on the grid *)

Lemma pow2_pos (j : Z) : (0 <= j)%Z → 0 < inject_Z (2 ^ j).
Proof.
  intros Hj. change 0 with (inject_Z 0). rewrite <- Zlt_Qlt. lia.
Qed.

Lemma shift_nonneg (t : Q) : (0 <= shift t)%Z.
Proof. unfold shift. lia. Qed.

Lemma shift_mono (t u : Q) : 0 <= t → t <= u → (shift t <= shift u)%Z.
Proof.
  intros Ht Htu. unfold shift.
  assert (Qfloor (Qabs t) <= Qfloor (Qabs u))%Z as Hf.
  { apply Qfloor_resp_le. rewrite !Qabs_pos; lra. }
  pose proof (Z.log2_le_mono _ _ Hf). lia.
Qed.

(** In the normal range the significand has its top bit set ... *)
Lemma round_grid_lower (t : Q) :
  0 <= t → (0 < shift t)%Z → (2 ^ (prec - 1 + shift t) <= round_grid t)%Z.
Proof.
  intros Ht Hj. unfold round_grid.
  set (j := shift t) in *.
  assert (Z.log2 (Qfloor (Qabs t)) = prec - 1 + j)%Z as Hlog
    by (unfold j, shift in *; lia).
  assert (0 < Qfloor (Qabs t))%Z as Hpos.
  { destruct (Z.lt_ge_cases 0 (Qfloor (Qabs t))) as [|Hle]; [done|].
    apply Z.log2_nonpos in Hle. unfold prec in *. lia. }
  pose proof (Z.log2_spec _ Hpos) as [Hlo _]. rewrite Hlog in Hlo.
  assert (inject_Z (2 ^ (prec - 1 + j)) <= t) as Hq.
  { rewrite <- (Qabs_pos t Ht).
    apply Qle_trans with (inject_Z (Qfloor (Qabs t))); [|apply Qfloor_le].
    by rewrite <- Zle_Qle. }
  rewrite Z.pow_add_r by (unfold prec; lia).
  apply Z.mul_le_mono_nonneg_r; [lia|].
  rewrite <- (rhe_Z (2 ^ (prec - 1))). apply rhe_mono.
  apply Qle_shift_div_l; [apply pow2_pos; lia|].
  rewrite <- inject_Z_mult, <- Z.pow_add_r by (unfold prec; lia). exact Hq.
Qed.

(** ... and never exceeds [prec] bits (it may reach [2^prec] by a carry). *)
Lemma round_grid_upper (t : Q) :
  0 <= t → (round_grid t <= 2 ^ (prec + shift t))%Z.
Proof.
  intros Ht. unfold round_grid.
  pose proof (shift_nonneg t) as Hj0.
  set (j := shift t) in *.
  assert (Z.log2 (Qfloor (Qabs t)) <= prec - 1 + j)%Z as Hlog
    by (unfold j, shift; lia).
  assert (Qfloor (Qabs t) < 2 ^ (prec + j))%Z as Hf.
  { destruct (Z.lt_ge_cases 0 (Qfloor (Qabs t))) as [Hpos|Hle].
    - pose proof (Z.log2_spec _ Hpos) as [_ Hhi].
      eapply Z.lt_le_trans; [exact Hhi|].
      apply Z.pow_le_mono_r; unfold prec in *; lia.
    - assert (0 < 2 ^ (prec + j))%Z by (unfold prec; lia). lia. }
  assert (t <= inject_Z (2 ^ (prec + j))) as Hq.
  { rewrite <- (Qabs_pos t Ht).
    destruct (floor_spec (Qabs t)) as [_ Hu].
    assert (inject_Z (Qfloor (Qabs t)) + 1 <= inject_Z (2 ^ (prec + j))).
    { change 1 with (inject_Z 1). rewrite <- inject_Z_plus, <- Zle_Qle. lia. }
    lra. }
  rewrite Z.pow_add_r by (unfold prec; lia).
  apply Z.mul_le_mono_nonneg_r; [lia|].
  rewrite <- (rhe_Z (2 ^ prec)). apply rhe_mono.
  apply Qle_shift_div_r; [apply pow2_pos; lia|].
  rewrite <- inject_Z_mult, <- Z.pow_add_r by (unfold prec; lia). exact Hq.
Qed.

Lemma round_grid_mono (t u : Q) :
  0 <= t → t <= u → (round_grid t <= round_grid u)%Z.
Proof.
  intros Ht Htu.
  pose proof (shift_mono t u Ht Htu) as Hs.
  pose proof (shift_nonneg t) as Hj0.
  destruct (Z.eq_dec (shift t) (shift u)) as [E | N].
  - unfold round_grid. rewrite E.
    apply Z.mul_le_mono_nonneg_r; [lia|]. apply rhe_mono.
    apply Qmult_le_compat_r; [exact Htu|].
    apply Qinv_le_0_compat, Qlt_le_weak, pow2_pos. lia.
  - etrans; [apply round_grid_upper; exact Ht|].
    etrans; [|apply round_grid_lower; [lra | lia]].
    apply Z.pow_le_mono_r; unfold prec; lia.
Qed.

(** The error of rounding on the grid is half a unit of the last kept
    bit. *)
Lemma round_grid_error (t : Q) :
  let h := inject_Z (2 ^ shift t) * (1 # 2) in
  inject_Z (round_grid t) - h <= t ∧ t <= inject_Z (round_grid t) + h.
Proof.
  intros h. unfold h, round_grid. clear h.
  pose proof (pow2_pos _ (shift_nonneg t)) as HP.
  set (P := inject_Z (2 ^ shift t)) in *.
  assert (t == t / P * P) as Et by (field; lra).
  pose proof (rhe_error (t / P)) as [El Eu].
  rewrite inject_Z_mult. fold P.
  set (r := inject_Z (rhe (t / P))) in *.
  set (q := t / P) in *.
  split; nra.
Qed.

(** *** Rounding to binary64 *)

Lemma grid_pos : 0 < grid.
Proof. apply pow2_pos. unfold emin. lia. Qed.

Lemma RN_value (x : Q) : RN x == inject_Z (round_grid (to_grid x)) / grid.
Proof. unfold RN. apply Qred_correct. Qed.

Lemma shift_proper (t u : Q) : t == u → shift t = shift u.
Proof.
  intros E. unfold shift.
  assert (Qfloor (Qabs t) = Qfloor (Qabs u)) as -> by (by rewrite E).
  done.
Qed.

(** Equal rationals round to the same canonical fraction. *)
Lemma RN_proper (x y : Q) : x == y → RN x = RN y.
Proof.
  intros E. unfold RN. apply Qred_complete.
  assert (to_grid x == to_grid y) as Eg by (unfold to_grid; by rewrite E).
  unfold round_grid. rewrite (shift_proper _ _ Eg).
  rewrite (rhe_proper (to_grid x / _) (to_grid y / inject_Z (2 ^ shift (to_grid y)))).
  - reflexivity.
  - by rewrite Eg.
Qed.

Lemma RN_mono (x y : Q) : 0 <= x → x <= y → RN x <= RN y.
Proof.
  intros Hx Hxy. rewrite !RN_value.
  pose proof grid_pos as HG.
  apply Qmult_le_compat_r; [|apply Qinv_le_0_compat; lra].
  rewrite <- Zle_Qle. apply round_grid_mono; unfold to_grid; fold grid; nra.
Qed.

Lemma RN_0 : RN 0 = 0.
Proof. by vm_compute. Qed.

Lemma RN_1 : RN 1 = 1.
Proof. by vm_compute. Qed.

Lemma RN_unit (x : Q) : 0 <= x → x <= 1 → 0 <= RN x ∧ RN x <= 1.
Proof.
  intros H0 H1.
  pose proof (RN_mono 0 x) as Hl. pose proof (RN_mono x 1) as Hu.
  rewrite RN_0 in Hl. rewrite RN_1 in Hu. split; [apply Hl | apply Hu]; lra.
Qed.

(** On [[0, 1]] the rounding error is at most [2^-53]. *)
Lemma RN_error (x : Q) :
  0 <= x → x <= 1 → RN x - eps <= x ∧ x <= RN x + eps.
Proof.
  intros H0 H1. pose proof grid_pos as HG.
  set (t := to_grid x).
  assert (0 <= t ∧ t <= grid) as [Ht0 Ht1] by (unfold t, to_grid; fold grid; nra).
  assert (shift t <= 1022)%Z as Hs.
  { unfold shift, prec.
    assert (Qfloor (Qabs t) <= 2 ^ 1074)%Z as Hf.
    { rewrite <- (Qfloor_Z (2 ^ 1074)). apply Qfloor_resp_le.
      rewrite Qabs_pos by done. exact Ht1. }
    apply Z.log2_le_mono in Hf. rewrite Z.log2_pow2 in Hf; lia. }
  pose proof (round_grid_error t) as [El Eu]. cbv zeta in El, Eu.
  assert (inject_Z (2 ^ shift t) <= inject_Z (2 ^ 1022)) as HP.
  { rewrite <- Zle_Qle. apply Z.pow_le_mono_r; lia. }
  assert (inject_Z (2 ^ 1022) * (1 # 2) == grid * eps) as Hc by by vm_compute.
  set (P := inject_Z (2 ^ shift t)) in *.
  set (Pmax := inject_Z (2 ^ 1022)) in *.
  rewrite RN_value. fold t.
  set (R := inject_Z (round_grid t)) in *.
  assert (t == x * grid) as Et by done.
  assert (R / grid * grid == R) as Er by (field; lra).
  set (rn := R / grid) in *.
  split; nra.
Qed.

(** *** Agreement with the binary64 arithmetic of the kernel *)

Section Hardware.
Import PrimFloat.

Example literals_agree :
  literal 6 1 = float_value 0x1.3333333333333p-1%float
  ∧ literal 4 1 = float_value 0x1.999999999999ap-2%float
  ∧ literal 8 1 = float_value 0x1.999999999999ap-1%float.
Proof. by vm_compute. Qed.

Example true_div_agrees :
  true_div 1 3 = float_value (1 / 3)%float
  ∧ true_div 2 7 = float_value (2 / 7)%float
  ∧ true_div 1 40000 = float_value (1 / 40000)%float.
Proof. by vm_compute. Qed.

Example weighted_sum_agrees :
  fadd (fmul (literal 6 1) (true_div 1 3)) (fmul (literal 4 1) (true_div 2 7))
  = float_value (0x1.3333333333333p-1 * (1 / 3) + 0x1.999999999999ap-2 * (2 / 7))%float.
Proof. by vm_compute. Qed.

(** [round(2.675, 2)] is [2.67], not [2.68]: the float is below the
    decimal it prints as. *)
Example py_round_below_half :
  py_round (literal 2675 3) 2 = float_value 0x1.55c28f5c28f5cp+1%float
  ∧ literal 267 2 = float_value 0x1.55c28f5c28f5cp+1%float.
Proof. by vm_compute. Qed.

End Hardware.

(** *** The operations of the scoring function *)

Lemma true_div_unit (a b : Z) :
  (0 <= a <= b)%Z → (0 < b)%Z → 0 <= true_div a b ∧ true_div a b <= 1.
Proof.
  intros Ha Hb. unfold true_div.
  assert (0 < inject_Z b) as Hb' by (change 0 with (inject_Z 0); by rewrite <- Zlt_Qlt).
  assert (0 <= inject_Z a) as Ha0 by (change 0 with (inject_Z 0); rewrite <- Zle_Qle; lia).
  assert (inject_Z a <= inject_Z b) as Hab by (rewrite <- Zle_Qle; lia).
  apply RN_unit.
  - apply Qle_shift_div_l; lra.
  - apply Qle_shift_div_r; lra.
Qed.

Lemma true_div_0 (b : Z) : true_div 0 b = 0.
Proof.
  unfold true_div. etrans; [|apply RN_0]. apply RN_proper.
  unfold Qdiv. change (inject_Z 0) with 0. lra.
Qed.

Lemma py_round_0 (ndigits : nat) : py_round 0 ndigits = 0.
Proof.
  unfold py_round. etrans; [|apply RN_0]. apply RN_proper.
  rewrite (rhe_proper _ (inject_Z 0)) by (change (inject_Z 0) with 0; lra).
  rewrite rhe_Z. unfold Qdiv. change (inject_Z 0) with 0. lra.
Qed.

Lemma py_round_4_digits (x : Q) :
  0 <= x → x <= 1 →
  let n := rhe (x * 10000) in
  (0 <= n <= 10000)%Z ∧ py_round x 4 = RN (inject_Z n / 10000).
Proof.
  intros H0 H1 n. split; [|done].
  unfold n. split.
  - pose proof (rhe_mono (inject_Z 0) (x * 10000)) as H.
    rewrite rhe_Z in H. apply H. change (inject_Z 0) with 0. lra.
  - pose proof (rhe_mono (x * 10000) (inject_Z 10000)) as H.
    rewrite rhe_Z in H. apply H. change (inject_Z 10000) with 10000. lra.
Qed.

Lemma py_round_unit (x : Q) :
  0 <= x → x <= 1 → 0 <= py_round x 4 ∧ py_round x 4 <= 1.
Proof.
  intros H0 H1.
  destruct (py_round_4_digits x H0 H1) as [[Hn0 Hn1] ->].
  set (n := rhe (x * 10000)) in *.
  assert (0 <= inject_Z n) as Ha0 by (change 0 with (inject_Z 0); rewrite <- Zle_Qle; lia).
  assert (inject_Z n <= 10000) as Ha1
    by (change 10000 with (inject_Z 10000); rewrite <- Zle_Qle; lia).
  apply RN_unit.
  - apply Qle_shift_div_l; lra.
  - apply Qle_shift_div_r; lra.
Qed.

(** A float already rounded to 4 digits rounds to itself. *)
Lemma py_round_idempotent (x : Q) :
  0 <= x → x <= 1 → py_round (py_round x 4) 4 = py_round x 4.
Proof.
  intros H0 H1.
  destruct (py_round_4_digits x H0 H1) as [[Hn0 Hn1] E]. rewrite E.
  set (n := rhe (x * 10000)) in *.
  assert (0 <= inject_Z n) as Ha0 by (change 0 with (inject_Z 0); rewrite <- Zle_Qle; lia).
  assert (inject_Z n <= 10000) as Ha1
    by (change 10000 with (inject_Z 10000); rewrite <- Zle_Qle; lia).
  set (y := inject_Z n / 10000).
  assert (y * 10000 == inject_Z n) as Ey by (unfold y; field).
  assert (0 <= y ∧ y <= 1) as [Hy0 Hy1] by (split; nra).
  pose proof (RN_error y Hy0 Hy1) as [El Eu]. unfold eps in El, Eu.
  unfold py_round at 1. change (inject_Z (10 ^ Z.of_nat 4)) with 10000.
  rewrite (rhe_unique (RN y * 10000) n) by lra. done.
Qed.

Lemma literal_06 : literal 6 1 = 5404319552844595 # 9007199254740992.
Proof. by vm_compute. Qed.

Lemma literal_04 : literal 4 1 = 3602879701896397 # 9007199254740992.
Proof. by vm_compute. Qed.

Lemma fmul_0_r (c : Q) : fmul c 0 = 0.
Proof. unfold fmul. etrans; [|apply RN_0]. apply RN_proper. lra. Qed.

Lemma fadd_0_0 : fadd 0 0 = 0.
Proof. by vm_compute. Qed.

(** The weighted sum of two coverages stays in [[0, 1]]: each product
    is at most its weight, and [0.6 + 0.4] rounds to [1.0]. *)
Lemma weighted_unit (pc sc : Q) :
  0 <= pc → pc <= 1 → 0 <= sc → sc <= 1 →
  let w := fadd (fmul (literal 6 1) pc) (fmul (literal 4 1) sc) in
  0 <= w ∧ w <= 1.
Proof.
  intros Hp0 Hp1 Hs0 Hs1 w. unfold w, fadd, fmul.
  rewrite literal_06, literal_04.
  set (c6 := 5404319552844595 # 9007199254740992).
  set (c4 := 3602879701896397 # 9007199254740992).
  assert (RN c6 = c6) as E6 by by vm_compute.
  assert (RN c4 = c4) as E4 by by vm_compute.
  assert (RN (c6 + c4) = 1) as E1 by by vm_compute.
  assert (0 <= c6 ∧ 0 <= c4) as [H6 H4] by (unfold c6, c4; lra).
  pose proof (RN_mono 0 (c6 * pc)) as A0. rewrite RN_0 in A0.
  pose proof (RN_mono (c6 * pc) c6) as A1. rewrite E6 in A1.
  pose proof (RN_mono 0 (c4 * sc)) as B0. rewrite RN_0 in B0.
  pose proof (RN_mono (c4 * sc) c4) as B1. rewrite E4 in B1.
  assert (0 <= c6 * pc ∧ c6 * pc <= c6) as [? ?] by (split; nra).
  assert (0 <= c4 * sc ∧ c4 * sc <= c4) as [? ?] by (split; nra).
  set (a := RN (c6 * pc)) in *. set (b := RN (c4 * sc)) in *.
  assert (0 <= a ∧ a <= c6) as [? ?] by (split; [apply A0 | apply A1]; lra).
  assert (0 <= b ∧ b <= c4) as [? ?] by (split; [apply B0 | apply B1]; lra).
  pose proof (RN_mono 0 (a + b)) as S0. rewrite RN_0 in S0.
  pose proof (RN_mono (a + b) (c6 + c4)) as S1. rewrite E1 in S1.
  split; [apply S0 | apply S1]; lra.
Qed.

End Binary64Facts.

(** ** Sorting and slicing *)

Section SortFacts.
Context {A : Type} (key : A → Q).
Implicit Types (x : A) (l : list A) (v : Q).

Lemma insert_desc_perm x l : insert_desc key x l ≡ₚ x :: l.
Proof.
  induction l as [|y l IH]; simpl; [done|].
  destruct (Qlt_le_dec (key x) (key y)); [|done].
  rewrite IH. apply Permutation_swap.
Qed.

Lemma sort_desc_perm l : sort_desc key l ≡ₚ l.
Proof.
  induction l as [|x l IH]; simpl; [done|].
  by rewrite insert_desc_perm, IH.
Qed.

Lemma insert_desc_sorted x l :
  StronglySorted (descending key) l →
  StronglySorted (descending key) (insert_desc key x l).
Proof.
  induction 1 as [|y l Hs IH Hy]; simpl.
  - repeat constructor.
  - destruct (Qlt_le_dec (key x) (key y)) as [Hlt | Hle].
    + constructor; [done|].
      rewrite insert_desc_perm. constructor; [|done].
      unfold descending. by apply Qlt_le_weak.
    + constructor; [by constructor|].
      constructor; [done|].
      eapply Forall_impl; [exact Hy|].
      unfold descending. intros z Hz. by apply Qle_trans with (key y).
Qed.

Lemma sort_desc_sorted l : StronglySorted (descending key) (sort_desc key l).
Proof.
  induction l as [|x l IH]; simpl; [constructor|].
  by apply insert_desc_sorted.
Qed.

(** Stability: among the entries of one key, insertion and sorting keep
    the order of the input. *)
Lemma insert_desc_stable v x l :
  filter (λ a, key a == v)%Q (insert_desc key x l)
  = filter (λ a, key a == v)%Q (x :: l).
Proof.
  induction l as [|y l IH]; simpl; [done|].
  destruct (Qlt_le_dec (key x) (key y)) as [Hlt | Hle]; [|done].
  rewrite (filter_cons _ y), IH, !filter_cons.
  destruct (decide (key x == v)%Q) as [Ex|]; [|done].
  destruct (decide (key y == v)%Q) as [Ey|]; [|done].
  rewrite Ex, Ey in Hlt. by apply Qlt_irrefl in Hlt.
Qed.

Lemma sort_desc_stable v l :
  filter (λ a, key a == v)%Q (sort_desc key l) = filter (λ a, key a == v)%Q l.
Proof.
  induction l as [|x l IH]; simpl; [done|].
  by rewrite insert_desc_stable, !filter_cons, IH.
Qed.

Lemma StronglySorted_sublist (R : relation A) l1 l2 :
  l1 `sublist_of` l2 → StronglySorted R l2 → StronglySorted R l1.
Proof.
  induction 1 as [|x l1 l2 Hsub IH|x l1 l2 Hsub IH]; intros Hs.
  - constructor.
  - apply StronglySorted_inv in Hs as [Hs Hx].
    constructor; [by apply IH|].
    rewrite Forall_forall in Hx |- *. intros z Hz. apply Hx.
    by eapply elem_of_sublist.
  - apply StronglySorted_inv in Hs as [Hs _]. by apply IH.
Qed.

Lemma slice_to_prefix l (stop : Z) : slice_to l stop `prefix_of` l.
Proof. unfold slice_to. destruct (0 <=? stop); apply prefix_take. Qed.

Lemma slice_to_sublist l (stop : Z) : slice_to l stop `sublist_of` l.
Proof. unfold slice_to. destruct (0 <=? stop); apply sublist_take. Qed.

Lemma slice_to_0 l : slice_to l 0 = [].
Proof. done. Qed.

Lemma slice_to_nonneg l (stop : Z) :
  0 ≤ stop → slice_to l stop = take (Z.to_nat stop) l.
Proof. intros H. unfold slice_to. by rewrite (proj2 (Z.leb_le _ _) H). Qed.

(** A negative [stop] drops that many entries from the end. *)
Lemma slice_to_neg l (stop : Z) :
  stop < 0 → slice_to l stop = take (length l - Z.to_nat (- stop)) l.
Proof.
  intros H. unfold slice_to. rewrite (proj2 (Z.leb_gt _ _) H).
  f_equal. lia.
Qed.

Lemma filter_prefix_sublist (P : A → Prop) `{!∀ x, Decision (P x)} l1 l2 :
  l1 `prefix_of` l2 → filter P l1 `sublist_of` filter P l2.
Proof. intros [k ->]. rewrite filter_app. by apply sublist_inserts_r. Qed.

End SortFacts.

(** ** The score as a function of the two sets *)

Section ScoreFacts.
Import Binary64 Binary64Facts.
Local Open Scope Q_scope.

Implicit Types (lower : string → string).
Implicit Types (user_prefs prefs : list string) (intern : Doc.t).
Implicit Types (P S : gset string).

Lemma list_to_set_empty_iff (l : list string) :
  (list_to_set l : gset string) = ∅ ↔ l = [].
Proof.
  destruct l as [|x l]; [done|]. split; [|done].
  intros H. exfalso. apply (not_elem_of_empty (C := gset string) x).
  rewrite <- H. apply elem_of_list_to_set, elem_of_cons. by left.
Qed.

(** Without a common token the weighted sum is [0.0]. *)
Lemma spec_score_no_overlap P S : size (S ∩ P) = 0%nat → spec_score P S = 0.
Proof.
  intros H. unfold spec_score. rewrite H. change (Z.of_nat 0) with 0%Z.
  rewrite !true_div_0.
  destruct (decide (P = ∅)); by rewrite !fmul_0_r, fadd_0_0, py_round_0.
Qed.

(** The closure computes the specified rule on the set of the captured
    preferences and the lower-cased skill set. *)
Lemma score_spec_score lower user_prefs intern :
  score lower user_prefs intern
  = spec_score (list_to_set user_prefs)
               (list_to_set (map lower (get_skills intern))).
Proof.
  unfold score. destruct (map lower (get_skills intern)) as [|s skills] eqn:E.
  - symmetry. apply spec_score_no_overlap.
    rewrite list_to_set_nil, intersection_empty_l_L. apply size_empty.
  - unfold spec_score. destruct user_prefs as [|p user_prefs].
    + by rewrite decide_True by done.
    + by rewrite decide_False by (by rewrite list_to_set_empty_iff).
Qed.

Lemma spec_score_unit P S :
  let w :=
    fadd (fmul (literal 6 1)
            (if decide (P = ∅) then 0
             else true_div (Z.of_nat (size (S ∩ P))) (Z.max 1 (Z.of_nat (size P)))))
         (fmul (literal 4 1)
            (true_div (Z.of_nat (size (S ∩ P))) (Z.max 1 (Z.of_nat (size S))))) in
  0 <= w ∧ w <= 1.
Proof.
  assert (size (S ∩ P) ≤ size P)%nat as HP
    by apply subseteq_size, intersection_subseteq_r.
  assert (size (S ∩ P) ≤ size S)%nat as HS
    by apply subseteq_size, intersection_subseteq_l.
  apply weighted_unit.
  - destruct (decide (P = ∅)); [lra|]. apply true_div_unit; lia.
  - destruct (decide (P = ∅)); [lra|]. apply true_div_unit; lia.
  - apply true_div_unit; lia.
  - apply true_div_unit; lia.
Qed.

Lemma spec_score_range P S : 0 <= spec_score P S ∧ spec_score P S <= 1.
Proof.
  destruct (spec_score_unit P S) as [H0 H1]. by apply py_round_unit.
Qed.

Lemma spec_score_rounded P S : py_round (spec_score P S) 4 = spec_score P S.
Proof.
  destruct (spec_score_unit P S) as [H0 H1]. by apply py_round_idempotent.
Qed.

(** The score is 0 without preferences. *)
Lemma score_no_prefs lower intern : score lower [] intern = 0.
Proof.
  rewrite score_spec_score. apply spec_score_no_overlap.
  rewrite list_to_set_nil, intersection_empty_r_L. apply size_empty.
Qed.

End ScoreFacts.

Lemma filter_none {A : Type} (P : A → Prop) `{!∀ x, Decision (P x)} (l : list A) :
  Forall (λ x, ¬ P x) l → filter P l = [].
Proof.
  induction 1 as [|x l Hx _ IH]; [done|]. by rewrite filter_cons_False.
Qed.

(** ** The ranking *)

Section RankFacts.
Local Open Scope Q_scope.

Variable lower : string → string.
Implicit Types (user_prefs prefs : list string) (catalog : list Doc.t).

Lemma length_scored user_prefs catalog :
  length (scored lower user_prefs catalog) = length catalog.
Proof. unfold scored. apply length_map. Qed.

Lemma ranked_sublist_sorted user_prefs catalog :
  ranked lower user_prefs catalog
    `sublist_of` sort_desc MatchResult.score (scored lower user_prefs catalog).
Proof. apply sublist_filter. Qed.

Lemma ranked_sorted user_prefs catalog :
  StronglySorted (descending MatchResult.score) (ranked lower user_prefs catalog).
Proof.
  eapply StronglySorted_sublist; [apply ranked_sublist_sorted|].
  apply sort_desc_sorted.
Qed.

Lemma ranked_positive user_prefs catalog :
  Forall (λ s, 0 < MatchResult.score s) (ranked lower user_prefs catalog).
Proof.
  apply Forall_forall. intros s Hs.
  by apply list_elem_of_filter in Hs as [Hs _].
Qed.

Lemma length_ranked user_prefs catalog :
  (length (ranked lower user_prefs catalog) ≤ length catalog)%nat.
Proof.
  unfold ranked. etrans; [apply length_filter|].
  by rewrite sort_desc_perm, length_scored.
Qed.

(** Among the entries of one score, the ranked list keeps the order of the
    catalog. *)
Lemma ranked_stable (v : Q) user_prefs catalog :
  filter (λ s, MatchResult.score s == v) (ranked lower user_prefs catalog)
    `sublist_of`
  filter (λ s, MatchResult.score s == v) (scored lower user_prefs catalog).
Proof.
  unfold ranked.
  rewrite list_filter_filter.
  rewrite (list_filter_iff _
             (λ s, 0 < MatchResult.score s ∧ MatchResult.score s == v))
    by (intros s; tauto).
  rewrite <- list_filter_filter, sort_desc_stable.
  apply sublist_filter.
Qed.

Lemma ranked_no_prefs catalog : ranked lower [] catalog = [].
Proof.
  unfold ranked. apply filter_none.
  rewrite sort_desc_perm. unfold scored.
  apply Forall_forall. intros s Hs.
  apply list_elem_of_fmap in Hs as (i & -> & _). simpl.
  rewrite score_no_prefs. lra.
Qed.

(** A catalog of one posting that scores 0 yields nothing. *)
Lemma rank_singleton_zero prefs (intern : Doc.t) (limit : Z) :
  score lower (map lower prefs) intern = 0 → rank lower prefs [intern] limit = [].
Proof.
  intros E. unfold rank, ranked, scored.
  cbn [map foldr sort_desc insert_desc]. rewrite E.
  rewrite filter_cons_False by (simpl; lra).
  unfold slice_to. destruct (0 <=? limit); apply take_nil.
Qed.

(** The endpoint answers with the ranking whenever the database is
    configured and the student exists. *)
Lemma match_top_rank (d : Database) (req : MatchRequest.t) (user : StudentDoc.t) :
  find (λ u, bool_decide (StudentDoc.email u = MatchRequest.email req))
       (student d) = Some user →
  match_top lower (Some d) req
  = inr (rank lower (default [] (StudentDoc.preferences user))
           (internship d) (MatchRequest.limit req)).
Proof. intros E. unfold match_top. by rewrite E. Qed.

End RankFacts.

(** ** Decimal numerals as tokens *)

Lemma ascii_lower_digit (d : N) : ascii_lower (pretty_N_char d) = pretty_N_char d.
Proof.
  destruct d as [|p]; [done|].
  repeat (destruct p as [p|p|]; try reflexivity).
Qed.

Lemma str_lower_pretty_N_go (x : N) (s : string) :
  str_lower (pretty_N_go x s) = pretty_N_go x (str_lower s).
Proof.
  revert s. induction (N.lt_wf_0 x) as [x _ IH]; intros s.
  assert (x = 0 ∨ 0 < x)%N as [-> | Hx] by lia.
  - by rewrite !pretty_N_go_0.
  - rewrite (pretty_N_go_step x s), (pretty_N_go_step x (str_lower s)) by done.
    rewrite IH by (by apply N.div_lt). cbn [str_lower].
    by rewrite ascii_lower_digit.
Qed.

Lemma str_lower_pretty_Z (z : Z) : 0 ≤ z → str_lower (pretty z) = pretty z.
Proof.
  destruct z as [|p|p]; [done | | lia]. intros _.
  unfold pretty, pretty_Z, pretty, pretty_positive, pretty, pretty_N.
  case_decide; [done|]. by rewrite str_lower_pretty_N_go.
Qed.

Lemma str_lower_numerals (l : list Z) :
  Forall (λ z, 0 ≤ z) l → map str_lower (pretty <$> l) = pretty <$> l.
Proof.
  induction 1 as [|z l Hz _ IH]; [done|].
  change (str_lower (pretty z) :: map str_lower (pretty <$> l)
          = pretty z :: (pretty <$> l)).
  by rewrite IH, str_lower_pretty_Z.
Qed.

Lemma size_numerals (l : list Z) :
  NoDup l → size (list_to_set (pretty <$> l) : gset string) = length l.
Proof.
  intros H. rewrite size_list_to_set, length_fmap; [done|].
  by apply (NoDup_fmap_2 _).
Qed.

Lemma elem_of_numerals (l : list Z) (z : Z) :
  pretty z ∈ (list_to_set (pretty <$> l) : gset string) ↔ z ∈ l.
Proof.
  rewrite elem_of_list_to_set, list_elem_of_fmap. split.
  - intros (y & E & Hy). by apply (inj pretty) in E as ->.
  - intros Hz. by exists z.
Qed.

(** The crowded example: 40000 preferences, 40000 skills, one in common. *)
Section Crowded.
Local Opaque seqZ.

Lemma crowded_prefs_lower :
  map str_lower crowded_prefs = pretty <$> seqZ 0 40000.
Proof.
  unfold crowded_prefs. apply str_lower_numerals.
  apply Forall_forall. intros z Hz. apply elem_of_seqZ in Hz. lia.
Qed.

Lemma crowded_skills_lower :
  map str_lower (get_skills crowded_intern)
  = pretty <$> (0 :: seqZ 40000 39999).
Proof.
  unfold crowded_intern, get_skills. cbn [Doc.skills default].
  apply str_lower_numerals. constructor; [lia|].
  apply Forall_forall. intros z Hz. apply elem_of_seqZ in Hz. lia.
Qed.

Lemma crowded_prefs_size :
  size (list_to_set (pretty <$> seqZ 0 40000) : gset string) = Z.to_nat 40000.
Proof. rewrite size_numerals by apply NoDup_seqZ. apply length_seqZ. Qed.

Lemma crowded_skills_size :
  size (list_to_set (pretty <$> (0 :: seqZ 40000 39999)) : gset string)
  = Z.to_nat 40000.
Proof.
  rewrite size_numerals.
  - cbn [length]. rewrite length_seqZ. lia.
  - constructor; [|apply NoDup_seqZ]. rewrite elem_of_seqZ. lia.
Qed.

Lemma crowded_overlap :
  (list_to_set (pretty <$> (0 :: seqZ 40000 39999)) : gset string)
    ∩ list_to_set (pretty <$> seqZ 0 40000)
  = {[ pretty 0 ]}.
Proof.
  apply set_eq. intros t.
  rewrite elem_of_intersection, elem_of_singleton. split.
  - intros [HS HP].
    apply elem_of_list_to_set, list_elem_of_fmap in HS as (a & -> & Ha).
    apply elem_of_numerals, elem_of_seqZ in HP.
    apply elem_of_cons in Ha as [-> | Ha]; [done|].
    apply elem_of_seqZ in Ha. lia.
  - intros ->. split; apply elem_of_numerals.
    + apply elem_of_cons. by left.
    + apply elem_of_seqZ. lia.
Qed.

Lemma crowded_score :
  score str_lower (map str_lower crowded_prefs) crowded_intern = 0%Q.
Proof.
  rewrite score_spec_score, crowded_prefs_lower, crowded_skills_lower.
  unfold spec_score.
  rewrite crowded_overlap, size_singleton, crowded_prefs_size,
    crowded_skills_size.
  rewrite decide_False.
  - by vm_compute.
  - intros E. pose proof crowded_prefs_size as Hs. rewrite E, size_empty in Hs.
    lia.
Qed.

End Crowded.

(** ** Invariance of the score *)

(** The score only depends on the two lower-cased sets. *)
Lemma score_set_ext (lower : string → string) (prefs1 prefs2 : list string)
    (d1 d2 : Doc.t) :
  (list_to_set (map lower prefs1) : gset string) = list_to_set (map lower prefs2) →
  (list_to_set (map lower (get_skills d1)) : gset string)
    = list_to_set (map lower (get_skills d2)) →
  score lower (map lower prefs1) d1 = score lower (map lower prefs2) d2.
Proof. intros HP HS. rewrite !score_spec_score. by rewrite HP, HS. Qed.

Lemma list_to_set_same_elements (l1 l2 : list string) :
  (∀ t, t ∈ l1 ↔ t ∈ l2) → (list_to_set l1 : gset string) = list_to_set l2.
Proof.
  intros H. apply set_eq. intros t. by rewrite !elem_of_list_to_set.
Qed.

Lemma map_same_elements (lower : string → string) (l1 l2 : list string) :
  (∀ t, t ∈ l1 ↔ t ∈ l2) → ∀ t, t ∈ map lower l1 ↔ t ∈ map lower l2.
Proof.
  intros H t. rewrite !list_elem_of_fmap.
  split; intros (x & -> & Hx); exists x; split; try done; by apply H.
Qed.

Lemma map_same_case (lower : string → string) (l1 l2 : list string) :
  Forall2 (λ a b, lower a = lower b) l1 l2 → map lower l1 = map lower l2.
Proof. induction 1 as [|a b l1 l2 E _ IH]; simpl; [done|]. by rewrite E, IH. Qed.

(** ** The documented properties *)

(** C1: for every preference list and every posting whose lower-cased
    skill set [S] is not empty, the score is
    [round(0.6 * pref_coverage + 0.4 * skill_coverage, 4)] with
    [overlap = |S ∩ P|], [pref_coverage = overlap / max(1, |P|)] when [P]
    is not empty and 0 otherwise, and
    [skill_coverage = overlap / max(1, |S|)]; for the preferences
    python, sql and the posting with the skills python, sql, pandas,
    analytics the score is the float [0.8]. *)
Theorem C1_score_formula :
  (∀ (lower : string → string) (prefs : list string) (intern : Doc.t),
      let P : gset string := list_to_set (map lower prefs) in
      let S : gset string := list_to_set (map lower (get_skills intern)) in
      S ≠ ∅ →
      score lower (map lower prefs) intern = spec_score P S)
  ∧ score str_lower (map str_lower ["python"; "sql"]) data_analyst
    = Binary64.literal 8 1.
Proof.
  split.
  - intros lower prefs intern P S _. apply score_spec_score.
  - by vm_compute.
Qed.

Lemma C1_score_formula_witness :
  (list_to_set (map str_lower (get_skills cybersecurity)) : gset string) ≠ ∅
  ∧ score str_lower (map str_lower ["Python"; "SQL"]) cybersecurity
    = spec_score (list_to_set (map str_lower ["Python"; "SQL"]))
                 (list_to_set (map str_lower (get_skills cybersecurity))).
Proof.
  assert ((list_to_set (map str_lower (get_skills cybersecurity)) : gset string) ≠ ∅)
    as H by (intros E; by apply list_to_set_empty_iff in E).
  split; [exact H|].
  exact (proj1 C1_score_formula str_lower ["Python"; "SQL"] cybersecurity H).
Defined.

(** C2, as the specification states it, fails: with a negative [limit]
    the slice [[: limit]] drops entries from the end instead of returning
    nothing.  Four seeded postings match "python"; with [limit = -1]
    three of them are returned. *)
Lemma C2_negative_limit_counterexample :
  ¬ (∀ (lower : string → string) (prefs : list string) (catalog : list Doc.t)
       (limit : Z),
        limit ≤ 0 → rank lower prefs catalog limit = []).
Proof.
  intros H.
  specialize (H str_lower ["python"] samples (-1) ltac:(lia)).
  assert (length (rank str_lower ["python"] samples (-1)) = 3%nat) as E
    by (vm_compute; reflexivity).
  rewrite H in E. discriminate.
Qed.

(** C2, amended: for [limit = 0] rank returns an empty sequence; for
    [limit < 0] it returns the sorted positive-score entries without the
    last [-limit] of them, which is an empty sequence exactly when at most
    [-limit] postings have a positive score. *)
Theorem C2_limit_nonpositive (lower : string → string) (prefs : list string)
    (catalog : list Doc.t) (limit : Z) :
  limit ≤ 0 →
  let full := ranked lower (map lower prefs) catalog in
  rank lower prefs catalog limit
  = (if decide (limit = 0) then []
     else take (length full - Z.to_nat (- limit)) full)
  ∧ (rank lower prefs catalog limit = []
     ↔ limit = 0 ∨ (length full ≤ Z.to_nat (- limit))%nat).
Proof.
  intros Hl full. unfold rank. fold full.
  destruct (decide (limit = 0)) as [-> | Hne].
  - split; [done|]. split; [by left | done].
  - assert (slice_to full limit = take (length full - Z.to_nat (- limit)) full)
      as E by (apply slice_to_neg; lia).
    split; [done|]. rewrite E. split.
    + intros Hnil. right.
      apply (f_equal length) in Hnil. rewrite length_take in Hnil.
      simpl in Hnil. lia.
    + intros [? | Hle]; [done|].
      replace (length full - Z.to_nat (- limit))%nat with 0%nat by lia. done.
Qed.

Lemma C2_limit_nonpositive_witness :
  -1 ≤ 0
  ∧ let full := ranked str_lower (map str_lower ["python"]) samples in
    rank str_lower ["python"] samples (-1)
    = (if decide (-1 = 0) then []
       else take (length full - Z.to_nat (- -1)) full)
    ∧ (rank str_lower ["python"] samples (-1) = []
       ↔ -1 = 0 ∨ (length full ≤ Z.to_nat (- -1))%nat).
Proof.
  assert (-1 ≤ 0) as H by lia.
  split; [exact H|].
  exact (C2_limit_nonpositive str_lower ["python"] samples (-1) H).
Defined.

(** C3: without preferences every score is exactly 0, and rank returns an
    empty sequence for every catalog and every limit. *)
Theorem C3_empty_preferences (lower : string → string) (catalog : list Doc.t)
    (limit : Z) :
  (∀ intern : Doc.t, score lower (map lower []) intern = 0%Q)
  ∧ rank lower [] catalog limit = [].
Proof.
  split.
  - intros intern. apply score_no_prefs.
  - unfold rank. simpl map. rewrite ranked_no_prefs.
    unfold slice_to. destruct (0 <=? limit); apply take_nil.
Qed.

(** C4: a posting whose skill set normalizes to the empty set scores
    exactly [0.0], whatever the preferences. *)
Theorem C4_no_skills_zero (lower : string → string) (user_prefs : list string)
    (intern : Doc.t) :
  (list_to_set (map lower (get_skills intern)) : gset string) = ∅ →
  score lower user_prefs intern = 0%Q.
Proof.
  intros H. apply list_to_set_empty_iff in H. unfold score. by rewrite H.
Qed.

Lemma C4_no_skills_zero_witness :
  (list_to_set (map str_lower (get_skills no_skills)) : gset string) = ∅
  ∧ score str_lower ["python"; "sql"] no_skills = 0%Q.
Proof.
  assert ((list_to_set (map str_lower (get_skills no_skills)) : gset string) = ∅)
    as H by reflexivity.
  split; [exact H|].
  exact (C4_no_skills_zero str_lower ["python"; "sql"] no_skills H).
Defined.

(** C5: the returned sequence is sorted by decreasing score, and for
    every score the returned entries with that score are, in their order,
    a subsequence of the catalog's entries with that score: equal scores
    keep the order of the catalog. *)
Theorem C5_sorted_stable (lower : string → string) (prefs : list string)
    (catalog : list Doc.t) (limit : Z) :
  let result := rank lower prefs catalog limit in
  StronglySorted (descending MatchResult.score) result
  ∧ ∀ v : Q,
      filter (λ s, MatchResult.score s == v)%Q result
        `sublist_of`
      filter (λ s, MatchResult.score s == v)%Q
        (scored lower (map lower prefs) catalog).
Proof.
  intros result. unfold result, rank. split.
  - eapply StronglySorted_sublist; [apply slice_to_sublist|].
    apply ranked_sorted.
  - intros v. etrans; [|apply ranked_stable].
    apply filter_prefix_sublist, slice_to_prefix.
Qed.

(** C6, as the specification states it, fails for a negative [limit]:
    the length of a sequence is never below 0, and with [limit = -1] three
    of the four seeded postings that match "python" are returned. *)
Lemma C6_negative_limit_counterexample :
  ¬ (∀ (lower : string → string) (prefs : list string) (catalog : list Doc.t)
       (limit : Z),
        let result := rank lower prefs catalog limit in
        Z.of_nat (length result) ≤ limit
        ∧ (length result ≤ length catalog)%nat
        ∧ Forall (λ s, 0 < MatchResult.score s)%Q result).
Proof.
  intros H.
  destruct (H str_lower ["python"] samples (-1)) as [Hlen _].
  assert (length (rank str_lower ["python"] samples (-1)) = 3%nat) as E
    by (vm_compute; reflexivity).
  rewrite E in Hlen. lia.
Qed.

(** C6, amended: for every limit the returned sequence is no longer than
    the catalog and every score in it is strictly positive; for every
    limit [>= 0] its length is at most [limit]. *)
Theorem C6_bounded_positive (lower : string → string) (prefs : list string)
    (catalog : list Doc.t) (limit : Z) :
  let result := rank lower prefs catalog limit in
  (0 ≤ limit → Z.of_nat (length result) ≤ limit)
  ∧ (length result ≤ length catalog)%nat
  ∧ Forall (λ s, 0 < MatchResult.score s)%Q result.
Proof.
  intros result. unfold result, rank. split; [|split].
  - intros Hl. rewrite slice_to_nonneg by done. rewrite length_take. lia.
  - etrans; [apply sublist_length, slice_to_sublist|]. apply length_ranked.
  - apply Forall_forall. intros s Hs.
    pose proof (ranked_positive lower (map lower prefs) catalog) as Hpos.
    rewrite Forall_forall in Hpos. apply Hpos.
    eapply elem_of_sublist; [exact Hs | apply slice_to_sublist].
Qed.

Lemma C6_bounded_positive_witness :
  0 ≤ 2
  ∧ Z.of_nat (length (rank str_lower ["python"; "sql"] samples 2)) ≤ 2.
Proof.
  assert (0 ≤ 2) as H by lia.
  split; [exact H|].
  exact (proj1 (C6_bounded_positive str_lower ["python"; "sql"] samples 2) H).
Defined.

(** C7: the score is invariant under everything that leaves the two
    lower-cased token sets unchanged, in particular under a reordering of
    the preference list or of a skill list, under the repetition or removal
    of duplicates in them (lists with the same elements), and under a
    change of the case of their tokens (tokens with the same lower case,
    such as "Python" and "python"). *)
Theorem C7_set_semantics (lower : string → string) :
  (∀ (prefs1 prefs2 : list string) (d1 d2 : Doc.t),
      (list_to_set (map lower prefs1) : gset string)
        = list_to_set (map lower prefs2) →
      (list_to_set (map lower (get_skills d1)) : gset string)
        = list_to_set (map lower (get_skills d2)) →
      score lower (map lower prefs1) d1 = score lower (map lower prefs2) d2)
  ∧ (∀ (prefs1 prefs2 : list string) (d1 d2 : Doc.t),
      prefs1 ≡ₚ prefs2 → get_skills d1 ≡ₚ get_skills d2 →
      score lower (map lower prefs1) d1 = score lower (map lower prefs2) d2)
  ∧ (∀ (prefs1 prefs2 : list string) (d1 d2 : Doc.t),
      (∀ t, t ∈ prefs1 ↔ t ∈ prefs2) →
      (∀ t, t ∈ get_skills d1 ↔ t ∈ get_skills d2) →
      score lower (map lower prefs1) d1 = score lower (map lower prefs2) d2)
  ∧ (∀ (prefs1 prefs2 : list string) (d1 d2 : Doc.t),
      Forall2 (λ a b, lower a = lower b) prefs1 prefs2 →
      Forall2 (λ a b, lower a = lower b) (get_skills d1) (get_skills d2) →
      score lower (map lower prefs1) d1 = score lower (map lower prefs2) d2).
Proof.
  assert (∀ (prefs1 prefs2 : list string) (d1 d2 : Doc.t),
      (∀ t, t ∈ prefs1 ↔ t ∈ prefs2) →
      (∀ t, t ∈ get_skills d1 ↔ t ∈ get_skills d2) →
      score lower (map lower prefs1) d1 = score lower (map lower prefs2) d2)
    as Hsame.
  { intros prefs1 prefs2 d1 d2 HP HS.
    apply score_set_ext; apply list_to_set_same_elements;
      by apply map_same_elements. }
  split; [|split; [|split]].
  - apply score_set_ext.
  - intros prefs1 prefs2 d1 d2 HP HS.
    apply Hsame; intros t; [by rewrite HP | by rewrite HS].
  - exact Hsame.
  - intros prefs1 prefs2 d1 d2 HP HS.
    apply score_set_ext; f_equal; by apply map_same_case.
Qed.

Lemma C7_set_semantics_witness :
  (list_to_set (map str_lower ["Python"; "sql"; "PYTHON"]) : gset string)
    = list_to_set (map str_lower ["SQL"; "python"])
  ∧ (list_to_set (map str_lower (get_skills data_analyst)) : gset string)
    = list_to_set (map str_lower (get_skills data_analyst_variant))
  ∧ score str_lower (map str_lower ["Python"; "sql"; "PYTHON"]) data_analyst
    = score str_lower (map str_lower ["SQL"; "python"]) data_analyst_variant.
Proof.
  assert ((list_to_set (map str_lower ["Python"; "sql"; "PYTHON"]) : gset string)
          = list_to_set (map str_lower ["SQL"; "python"])) as HP
    by (vm_compute; reflexivity).
  assert ((list_to_set (map str_lower (get_skills data_analyst)) : gset string)
          = list_to_set (map str_lower (get_skills data_analyst_variant))) as HS
    by (vm_compute; reflexivity).
  split; [exact HP|]. split; [exact HS|].
  exact (proj1 (C7_set_semantics str_lower) _ _ _ _ HP HS).
Defined.

(** C8: every score lies in [[0, 1]] and is its own rounding to 4
    decimal digits. *)
Theorem C8_score_range (lower : string → string) (user_prefs : list string)
    (intern : Doc.t) :
  let s := score lower user_prefs intern in
  (0 <= s)%Q ∧ (s <= 1)%Q ∧ Binary64.py_round s 4 = s.
Proof.
  intros s. unfold s. rewrite score_spec_score.
  pose proof (spec_score_range (list_to_set user_prefs)
                (list_to_set (map lower (get_skills intern)))) as [H0 H1].
  split; [done|]. split; [done|]. apply spec_score_rounded.
Qed.

(** C9: the score is a function of the preference set and the skill set
    of the posting alone: one function of the two lower-cased token sets
    gives the score of every evaluation, whatever the order of the lists,
    the other fields of the posting or the rest of the request. *)
Theorem C9_score_deterministic :
  ∃ f : gset string → gset string → Q,
    ∀ (lower : string → string) (prefs : list string) (intern : Doc.t),
      score lower (map lower prefs) intern
      = f (list_to_set (map lower prefs))
          (list_to_set (map lower (get_skills intern))).
Proof. exists spec_score. intros. apply score_spec_score. Qed.

(** C10: a common token does not guarantee a place in the result.  A
    student with 40000 preferences and a posting with 40000 skills that
    share exactly one token: [0.6 * 1/40000 + 0.4 * 1/40000] rounds to
    [0.0] at 4 decimal digits, so the posting is dropped for every limit
    although both sets are non-empty and overlap. *)
Theorem C10_positive_overlap_excluded :
  ∃ (prefs : list string) (intern : Doc.t),
    let P : gset string := list_to_set (map str_lower prefs) in
    let S : gset string := list_to_set (map str_lower (get_skills intern)) in
    P ≠ ∅ ∧ S ≠ ∅
    ∧ size (S ∩ P) = 1%nat
    ∧ Z.of_nat (size P) = 40000 ∧ Z.of_nat (size S) = 40000
    ∧ score str_lower (map str_lower prefs) intern = 0%Q
    ∧ ∀ limit : Z, rank str_lower prefs [intern] limit = [].
Proof.
  exists crowded_prefs, crowded_intern. intros P S.
  assert (size (S ∩ P) = 1%nat) as Hov.
  { unfold P, S. rewrite crowded_prefs_lower, crowded_skills_lower.
    rewrite crowded_overlap. apply size_singleton. }
  assert (Z.of_nat (size P) = 40000) as HP.
  { unfold P. rewrite crowded_prefs_lower, crowded_prefs_size. lia. }
  assert (Z.of_nat (size S) = 40000) as HS.
  { unfold S. rewrite crowded_skills_lower, crowded_skills_size. lia. }
  split; [intros E; rewrite E, size_empty in HP; lia|].
  split; [intros E; rewrite E, size_empty in HS; lia|].
  split; [exact Hov|]. split; [exact HP|]. split; [exact HS|].
  split; [apply crowded_score|].
  intros limit. apply rank_singleton_zero, crowded_score.
Qed.

(** * Further verified properties *)

(** ** Further properties of the ranking *)

Section RankMore.
Local Open Scope Q_scope.

Context (lower : string → string).
Implicit Types (prefs : list string) (catalog : list Doc.t) (limit : Z).

(** Every entry of the ranked list is a posting of the catalog with the
    score that [score] gives it. *)
Lemma elem_of_ranked (r : MatchResult.t) user_prefs catalog :
  r ∈ ranked lower user_prefs catalog →
  (0 < MatchResult.score r)
  ∧ ∃ i, i ∈ catalog
       ∧ r = MatchResult.Build (score lower user_prefs i) (to_internship i).
Proof.
  unfold ranked. intros Hr. apply list_elem_of_filter in Hr as [Hpos Hr].
  split; [done|].
  rewrite sort_desc_perm in Hr. unfold scored in Hr.
  apply list_elem_of_fmap in Hr as (i & -> & Hi). by exists i.
Qed.

Lemma elem_of_rank (r : MatchResult.t) prefs catalog limit :
  r ∈ rank lower prefs catalog limit → r ∈ ranked lower (map lower prefs) catalog.
Proof.
  unfold rank. intros Hr.
  eapply elem_of_sublist; [exact Hr | apply slice_to_sublist].
Qed.

Lemma slice_to_take {A : Type} (l : list A) (stop : Z) :
  ∃ n : nat, slice_to l stop = take n l.
Proof. unfold slice_to. destruct (0 <=? stop)%Z; eauto. Qed.

Lemma scored_set_ext prefs1 prefs2 catalog :
  (list_to_set (map lower prefs1) : gset string) = list_to_set (map lower prefs2) →
  scored lower (map lower prefs1) catalog = scored lower (map lower prefs2) catalog.
Proof.
  intros HP. unfold scored. apply map_ext. intros i.
  by rewrite (score_set_ext lower prefs1 prefs2 i i HP eq_refl).
Qed.

End RankMore.

(** X1: a larger limit only appends: for [0 <= k <= k'] the result for
    limit [k] is a prefix of the result for limit [k']. *)
Theorem X1_rank_limit_monotone (lower : string → string) (prefs : list string)
    (catalog : list Doc.t) (k k' : Z) :
  0 ≤ k → k ≤ k' →
  rank lower prefs catalog k `prefix_of` rank lower prefs catalog k'.
Proof.
  intros Hk Hkk'. unfold rank.
  rewrite !slice_to_nonneg by lia.
  replace (Z.to_nat k) with (Z.to_nat k `min` Z.to_nat k')%nat by lia.
  rewrite <- take_take. apply prefix_take.
Qed.

Lemma X1_rank_limit_monotone_witness :
  0 ≤ 1 ∧ 1 ≤ 3
  ∧ rank str_lower ["python"; "sql"] samples 1
      `prefix_of` rank str_lower ["python"; "sql"] samples 3.
Proof.
  assert (0 ≤ 1) as H0 by lia. assert (1 ≤ 3) as H1 by lia.
  split; [exact H0|]. split; [exact H1|].
  exact (X1_rank_limit_monotone str_lower ["python"; "sql"] samples 1 3 H0 H1).
Defined.

(** X2: the limit cuts the ranking at the bottom: the positive-score
    entries that are left out follow the returned ones in the sorted
    list, and none of them has a higher score than a returned entry. *)
Theorem X2_rank_keeps_best (lower : string → string) (prefs : list string)
    (catalog : list Doc.t) (limit : Z) :
  ∃ rest : list MatchResult.t,
    ranked lower (map lower prefs) catalog
      = rank lower prefs catalog limit ++ rest
    ∧ Forall (λ a,
        Forall (λ b, MatchResult.score b <= MatchResult.score a)%Q rest)
        (rank lower prefs catalog limit).
Proof.
  unfold rank.
  destruct (slice_to_take (ranked lower (map lower prefs) catalog) limit)
    as [n ->].
  exists (drop n (ranked lower (map lower prefs) catalog)).
  split; [by rewrite take_drop|].
  apply Forall_forall. intros a Ha. apply Forall_forall. intros b Hb.
  pose proof (ranked_sorted lower (map lower prefs) catalog) as Hs.
  rewrite <- (take_drop n) in Hs.
  exact (StronglySorted_app_1_elem_of _ _ _ _ _ Hs Ha Hb).
Qed.

(** X3: with a limit of at least the size of the catalog nothing is cut:
    the result holds exactly the postings with a positive score, each as
    often as the catalog has it. *)
Theorem X3_rank_complete (lower : string → string) (prefs : list string)
    (catalog : list Doc.t) (limit : Z) :
  Z.of_nat (length catalog) ≤ limit →
  rank lower prefs catalog limit
    ≡ₚ filter (λ s, 0 < MatchResult.score s)%Q
         (scored lower (map lower prefs) catalog).
Proof.
  intros Hl. unfold rank.
  pose proof (length_ranked lower (map lower prefs) catalog) as Hlen.
  rewrite slice_to_nonneg by lia. rewrite take_ge by lia.
  unfold ranked. by rewrite sort_desc_perm.
Qed.

Lemma X3_rank_complete_witness :
  Z.of_nat (length samples) ≤ 5
  ∧ rank str_lower ["python"; "sql"] samples 5
      ≡ₚ filter (λ s, 0 < MatchResult.score s)%Q
           (scored str_lower (map str_lower ["python"; "sql"]) samples).
Proof.
  assert (Z.of_nat (length samples) ≤ 5) as H by (vm_compute; discriminate).
  split; [exact H|].
  exact (X3_rank_complete str_lower ["python"; "sql"] samples 5 H).
Defined.

(** X4: every returned entry is a posting of the catalog, with the score
    and the fields of that posting, and its lower-cased skills share at
    least one token with the lower-cased preferences. *)
Theorem X4_rank_sound (lower : string → string) (prefs : list string)
    (catalog : list Doc.t) (limit : Z) :
  Forall (λ r, ∃ i : Doc.t,
      i ∈ catalog
      ∧ r = MatchResult.Build (score lower (map lower prefs) i) (to_internship i)
      ∧ (list_to_set (map lower (get_skills i)) : gset string)
          ∩ list_to_set (map lower prefs) ≠ ∅)
    (rank lower prefs catalog limit).
Proof.
  apply Forall_forall. intros r Hr.
  apply elem_of_rank, elem_of_ranked in Hr as (Hpos & i & Hi & ->).
  exists i. split; [done|]. split; [done|].
  intros Hempty. simpl in Hpos.
  rewrite score_spec_score, spec_score_no_overlap in Hpos.
  - by apply Qlt_irrefl in Hpos.
  - rewrite Hempty. apply size_empty.
Qed.

(** X5: the ranking only depends on the set of lower-cased preferences:
    their order, their case and repetitions do not change the result. *)
Theorem X5_rank_set_semantics (lower : string → string)
    (prefs1 prefs2 : list string) (catalog : list Doc.t) (limit : Z) :
  (list_to_set (map lower prefs1) : gset string) = list_to_set (map lower prefs2) →
  rank lower prefs1 catalog limit = rank lower prefs2 catalog limit.
Proof.
  intros HP. unfold rank, ranked. by rewrite (scored_set_ext lower prefs1 prefs2).
Qed.

Lemma X5_rank_set_semantics_witness :
  (list_to_set (map str_lower ["SQL"; "Python"; "sql"]) : gset string)
    = list_to_set (map str_lower ["python"; "sql"])
  ∧ rank str_lower ["SQL"; "Python"; "sql"] samples 5
    = rank str_lower ["python"; "sql"] samples 5.
Proof.
  assert ((list_to_set (map str_lower ["SQL"; "Python"; "sql"]) : gset string)
          = list_to_set (map str_lower ["python"; "sql"])) as H
    by (vm_compute; reflexivity).
  split; [exact H|].
  exact (X5_rank_set_semantics str_lower ["SQL"; "Python"; "sql"]
           ["python"; "sql"] samples 5 H).
Defined.

(** ** Order properties of the score *)

Section ScoreOrder.
Import Binary64 Binary64Facts.
Local Open Scope Q_scope.

Lemma RN_nonneg (x : Q) : 0 <= x → 0 <= RN x.
Proof. intros H. pose proof (RN_mono 0 x) as M. rewrite RN_0 in M. apply M; lra. Qed.

Lemma inject_Z_nonneg (n : Z) : (0 <= n)%Z → 0 <= inject_Z n.
Proof. intros H. change 0 with (inject_Z 0). by rewrite <- Zle_Qle. Qed.

Lemma inject_Z_pos (n : Z) : (0 < n)%Z → 0 < inject_Z n.
Proof. intros H. change 0 with (inject_Z 0). by rewrite <- Zlt_Qlt. Qed.

Lemma literal_nonneg (n : Z) (k : nat) : (0 <= n)%Z → 0 <= literal n k.
Proof.
  intros H. apply RN_nonneg.
  apply Qle_shift_div_l; [apply inject_Z_pos; lia|].
  pose proof (inject_Z_nonneg n H). lra.
Qed.

Lemma fmul_mono (c x y : Q) : 0 <= c → 0 <= x → x <= y → fmul c x <= fmul c y.
Proof. intros Hc Hx Hxy. apply RN_mono; nra. Qed.

Lemma fmul_nonneg (c x : Q) : 0 <= c → 0 <= x → 0 <= fmul c x.
Proof. intros Hc Hx. apply RN_nonneg. nra. Qed.

Lemma fadd_mono (a a' b b' : Q) :
  0 <= a → a <= a' → 0 <= b → b <= b' → fadd a b <= fadd a' b'.
Proof. intros. apply RN_mono; lra. Qed.

Lemma fadd_nonneg (a b : Q) : 0 <= a → 0 <= b → 0 <= fadd a b.
Proof. intros. unfold fadd. apply RN_nonneg. lra. Qed.

(** More matching tokens out of no more tokens: a larger quotient. *)
Lemma true_div_mono (a a' b b' : Z) :
  (0 <= a <= a')%Z → (0 < b' <= b)%Z → true_div a b <= true_div a' b'.
Proof.
  intros Ha Hb. unfold true_div.
  pose proof (inject_Z_nonneg a ltac:(lia)) as Ha0.
  pose proof (inject_Z_pos b ltac:(lia)) as Hb0.
  pose proof (inject_Z_pos b' ltac:(lia)) as Hb0'.
  assert (inject_Z a <= inject_Z a') as Haa by (rewrite <- Zle_Qle; lia).
  assert (inject_Z b' <= inject_Z b) as Hbb by (rewrite <- Zle_Qle; lia).
  apply RN_mono.
  - apply Qle_shift_div_l; lra.
  - apply Qle_shift_div_l; [lra|].
    assert (inject_Z a / inject_Z b * inject_Z b == inject_Z a) as E
      by (field; lra).
    assert (0 <= inject_Z a / inject_Z b) as Hq
      by (apply Qle_shift_div_l; lra).
    set (q := inject_Z a / inject_Z b) in *. nra.
Qed.

Lemma true_div_nonneg (a b : Z) : (0 <= a)%Z → (0 < b)%Z → 0 <= true_div a b.
Proof.
  intros Ha Hb. apply RN_nonneg.
  pose proof (inject_Z_nonneg a Ha). pose proof (inject_Z_pos b Hb).
  apply Qle_shift_div_l; lra.
Qed.

Lemma true_div_same (n : Z) : (0 < n)%Z → true_div n n = 1.
Proof.
  intros Hn. unfold true_div. etrans; [|apply RN_1]. apply RN_proper.
  pose proof (inject_Z_pos n Hn). field. lra.
Qed.

Lemma py_round_mono (x y : Q) (ndigits : nat) :
  0 <= x → x <= y → py_round x ndigits <= py_round y ndigits.
Proof.
  intros Hx Hxy. unfold py_round.
  pose proof (inject_Z_pos (10 ^ Z.of_nat ndigits) ltac:(lia)) as Hp.
  set (p := inject_Z (10 ^ Z.of_nat ndigits)) in *.
  assert (0 <= rhe (x * p))%Z as H0.
  { pose proof (rhe_mono (inject_Z 0) (x * p)) as M. rewrite rhe_Z in M.
    apply M. change (inject_Z 0) with 0. nra. }
  assert (rhe (x * p) <= rhe (y * p))%Z as H1 by (apply rhe_mono; nra).
  pose proof (inject_Z_nonneg _ H0) as H0'.
  assert (inject_Z (rhe (x * p)) <= inject_Z (rhe (y * p))) as H1'
    by by rewrite <- Zle_Qle.
  apply RN_mono.
  - apply Qle_shift_div_l; lra.
  - apply Qmult_le_compat_r; [done|]. apply Qinv_le_0_compat. lra.
Qed.

(** The score as a monotone function of the three counts. *)
Lemma spec_score_mono (P S S' : gset string) :
  (size (S ∩ P) ≤ size (S' ∩ P))%nat → (size S' ≤ size S)%nat →
  spec_score P S <= spec_score P S'.
Proof.
  intros Hov Hsz. unfold spec_score.
  assert (size (S ∩ P) ≤ size P)%nat
    by apply subseteq_size, intersection_subseteq_r.
  assert (size (S' ∩ P) ≤ size P)%nat
    by apply subseteq_size, intersection_subseteq_r.
  pose proof (literal_nonneg 6 1 ltac:(lia)) as H6.
  pose proof (literal_nonneg 4 1 ltac:(lia)) as H4.
  set (c6 := literal 6 1) in *. set (c4 := literal 4 1) in *.
  set (pc := if decide (P = ∅) then 0
             else true_div (Z.of_nat (size (S ∩ P))) (Z.max 1 (Z.of_nat (size P)))).
  set (pc' := if decide (P = ∅) then 0
              else true_div (Z.of_nat (size (S' ∩ P))) (Z.max 1 (Z.of_nat (size P)))).
  assert (0 <= pc ∧ pc <= pc') as [Hpc0 Hpc].
  { unfold pc, pc'. destruct (decide (P = ∅)); [lra|]. split.
    - apply true_div_nonneg; lia.
    - apply true_div_mono; lia. }
  set (sc := true_div (Z.of_nat (size (S ∩ P))) (Z.max 1 (Z.of_nat (size S)))).
  set (sc' := true_div (Z.of_nat (size (S' ∩ P))) (Z.max 1 (Z.of_nat (size S')))).
  assert (0 <= sc ∧ sc <= sc') as [Hsc0 Hsc].
  { unfold sc, sc'. split.
    - apply true_div_nonneg; lia.
    - apply true_div_mono; lia. }
  clearbody c6 c4 pc pc' sc sc'.
  apply py_round_mono.
  - apply fadd_nonneg; by apply fmul_nonneg.
  - apply fadd_mono.
    + by apply fmul_nonneg.
    + by apply fmul_mono.
    + by apply fmul_nonneg.
    + by apply fmul_mono.
Qed.

(** One common token out of at most 10000 preferences, or out of at most
    7500 skills, is enough for the score [0.0001]. *)
Lemma spec_score_floor (P S : gset string) :
  (1 ≤ size (S ∩ P))%nat →
  (Z.of_nat (size P) <= 10000)%Z ∨ (Z.of_nat (size S) <= 7500)%Z →
  literal 1 4 <= spec_score P S.
Proof.
  intros Hov Hsmall. unfold spec_score.
  assert (size (S ∩ P) ≤ size P)%nat
    by apply subseteq_size, intersection_subseteq_r.
  assert (size (S ∩ P) ≤ size S)%nat
    by apply subseteq_size, intersection_subseteq_l.
  assert (P ≠ ∅) as HP.
  { intros ->. rewrite size_empty in *. lia. }
  rewrite decide_False by done.
  assert (py_round (fadd (fmul (literal 6 1) (true_div 1 10000)) 0) 4
          = literal 1 4) as EP by (vm_compute; reflexivity).
  assert (py_round (fadd 0 (fmul (literal 4 1) (true_div 1 7500))) 4
          = literal 1 4) as ES by (vm_compute; reflexivity).
  pose proof (literal_nonneg 6 1 ltac:(lia)) as H6.
  pose proof (literal_nonneg 4 1 ltac:(lia)) as H4.
  set (c6 := literal 6 1) in *. set (c4 := literal 4 1) in *.
  set (pc := true_div (Z.of_nat (size (S ∩ P))) (Z.max 1 (Z.of_nat (size P)))).
  set (sc := true_div (Z.of_nat (size (S ∩ P))) (Z.max 1 (Z.of_nat (size S)))).
  assert (0 <= pc) as Hpc by (apply true_div_nonneg; lia).
  assert (0 <= sc) as Hsc by (apply true_div_nonneg; lia).
  pose proof (true_div_nonneg 1 10000 ltac:(lia) ltac:(lia)) as Hp0.
  pose proof (true_div_nonneg 1 7500 ltac:(lia) ltac:(lia)) as Hs0.
  destruct Hsmall as [Hs | Hs].
  - assert (true_div 1 10000 <= pc) as Hle by (apply true_div_mono; lia).
    rewrite <- EP. clear EP ES. clearbody c6 c4 pc sc.
    set (p0 := true_div 1 10000) in *. clearbody p0.
    apply py_round_mono.
    + apply fadd_nonneg; [by apply fmul_nonneg | lra].
    + apply fadd_mono;
        [by apply fmul_nonneg | by apply fmul_mono | lra | by apply fmul_nonneg].
  - assert (true_div 1 7500 <= sc) as Hle by (apply true_div_mono; lia).
    rewrite <- ES. clear EP ES. clearbody c6 c4 pc sc.
    set (s0 := true_div 1 7500) in *. clearbody s0.
    apply py_round_mono.
    + apply fadd_nonneg; [lra | by apply fmul_nonneg].
    + apply fadd_mono;
        [lra | by apply fmul_nonneg | by apply fmul_nonneg | by apply fmul_mono].
Qed.

(** Equal sets score [1.0]. *)
Lemma spec_score_same (P : gset string) : P ≠ ∅ → spec_score P P = 1.
Proof.
  intros HP. unfold spec_score. rewrite decide_False by done.
  assert (P ∩ P = P) as ->
    by (apply set_eq; intros x; rewrite elem_of_intersection; tauto).
  assert (0 < size P)%nat as Hn.
  { destruct (decide (size P = 0%nat)) as [E|]; [|lia].
    apply size_empty_iff in E. by apply leibniz_equiv in E. }
  rewrite !Z.max_r by lia. rewrite !true_div_same by lia. by vm_compute.
Qed.

End ScoreOrder.

(** X6: a posting whose lower-cased skill set equals the non-empty
    lower-cased preference set scores exactly [1.0], the maximum. *)
Theorem X6_score_perfect_match (lower : string → string) (prefs : list string)
    (intern : Doc.t) :
  (list_to_set (map lower (get_skills intern)) : gset string)
    = list_to_set (map lower prefs) →
  prefs ≠ [] →
  score lower (map lower prefs) intern = 1%Q.
Proof.
  intros HS Hne. rewrite score_spec_score, HS. apply spec_score_same.
  rewrite list_to_set_empty_iff. by destruct prefs.
Qed.

Lemma X6_score_perfect_match_witness :
  (list_to_set (map str_lower (get_skills data_analyst_variant)) : gset string)
    = list_to_set (map str_lower ["pandas"; "SQL"; "python"; "analytics"])
  ∧ ["pandas"; "SQL"; "python"; "analytics"] ≠ []
  ∧ score str_lower (map str_lower ["pandas"; "SQL"; "python"; "analytics"])
      data_analyst_variant = 1%Q.
Proof.
  assert ((list_to_set (map str_lower (get_skills data_analyst_variant))
             : gset string)
          = list_to_set (map str_lower ["pandas"; "SQL"; "python"; "analytics"]))
    as HS by (vm_compute; reflexivity).
  assert (["pandas"; "SQL"; "python"; "analytics"] ≠ ([] : list string))
    as Hne by discriminate.
  split; [exact HS|]. split; [exact Hne|].
  exact (X6_score_perfect_match str_lower
           ["pandas"; "SQL"; "python"; "analytics"] data_analyst_variant HS Hne).
Defined.

(** X7: when the student has at most 10000 distinct preferences, or the
    posting at most 7500 distinct skills, one common token is enough: the
    score is at least the float [0.0001], hence positive, and the posting
    is not filtered out. *)
Theorem X7_score_positive (lower : string → string) (prefs : list string)
    (intern : Doc.t) :
  let P : gset string := list_to_set (map lower prefs) in
  let S : gset string := list_to_set (map lower (get_skills intern)) in
  (1 ≤ size (S ∩ P))%nat →
  Z.of_nat (size P) ≤ 10000 ∨ Z.of_nat (size S) ≤ 7500 →
  (Binary64.literal 1 4 <= score lower (map lower prefs) intern)%Q
  ∧ (0 < score lower (map lower prefs) intern)%Q.
Proof.
  intros P S Hov Hsmall.
  pose proof (spec_score_floor P S Hov Hsmall) as H.
  rewrite score_spec_score. fold P S. split; [exact H|].
  eapply Qlt_le_trans; [|exact H]. by vm_compute.
Qed.

Lemma X7_score_positive_witness :
  (1 ≤ size ((list_to_set (map str_lower (get_skills cybersecurity)) : gset string)
             ∩ list_to_set (map str_lower ["Python"; "go"])))%nat
  ∧ (Z.of_nat (size (list_to_set (map str_lower ["Python"; "go"]) : gset string))
       ≤ 10000
     ∨ Z.of_nat (size (list_to_set (map str_lower (get_skills cybersecurity))
                        : gset string)) ≤ 7500)
  ∧ (Binary64.literal 1 4
       <= score str_lower (map str_lower ["Python"; "go"]) cybersecurity)%Q
  ∧ (0 < score str_lower (map str_lower ["Python"; "go"]) cybersecurity)%Q.
Proof.
  assert (1 ≤ size ((list_to_set (map str_lower (get_skills cybersecurity))
                       : gset string)
                    ∩ list_to_set (map str_lower ["Python"; "go"])))%nat
    as Hov by (vm_compute; lia).
  assert (Z.of_nat (size (list_to_set (map str_lower ["Python"; "go"])
                            : gset string)) ≤ 10000
          ∨ Z.of_nat (size (list_to_set (map str_lower (get_skills cybersecurity))
                              : gset string)) ≤ 7500)
    as Hsmall by (left; vm_compute; discriminate).
  split; [exact Hov|]. split; [exact Hsmall|].
  exact (X7_score_positive str_lower ["Python"; "go"] cybersecurity Hov Hsmall).
Defined.

(** X8: for one student, a posting with at least as many matching tokens
    and no more distinct skills than another never scores lower. *)
Theorem X8_score_monotone (lower : string → string) (user_prefs : list string)
    (intern intern' : Doc.t) :
  let P : gset string := list_to_set user_prefs in
  let S : gset string := list_to_set (map lower (get_skills intern)) in
  let S' : gset string := list_to_set (map lower (get_skills intern')) in
  (size (S ∩ P) ≤ size (S' ∩ P))%nat → (size S' ≤ size S)%nat →
  (score lower user_prefs intern <= score lower user_prefs intern')%Q.
Proof.
  intros P S S' Hov Hsz. rewrite !score_spec_score.
  by apply spec_score_mono.
Qed.

Lemma X8_score_monotone_witness :
  (size ((list_to_set (map str_lower (get_skills cybersecurity)) : gset string)
         ∩ list_to_set ["python"; "sql"])
   ≤ size ((list_to_set (map str_lower (get_skills data_analyst)) : gset string)
           ∩ list_to_set ["python"; "sql"]))%nat
  ∧ (size (list_to_set (map str_lower (get_skills data_analyst)) : gset string)
     ≤ size (list_to_set (map str_lower (get_skills cybersecurity)) : gset string))%nat
  ∧ (score str_lower ["python"; "sql"] cybersecurity
     <= score str_lower ["python"; "sql"] data_analyst)%Q.
Proof.
  assert (size ((list_to_set (map str_lower (get_skills cybersecurity))
                   : gset string) ∩ list_to_set ["python"; "sql"])
          ≤ size ((list_to_set (map str_lower (get_skills data_analyst))
                     : gset string) ∩ list_to_set ["python"; "sql"]))%nat
    as Hov by (vm_compute; lia).
  assert (size (list_to_set (map str_lower (get_skills data_analyst))
                  : gset string)
          ≤ size (list_to_set (map str_lower (get_skills cybersecurity))
                    : gset string))%nat
    as Hsz by (vm_compute; lia).
  split; [exact Hov|]. split; [exact Hsz|].
  exact (X8_score_monotone str_lower ["python"; "sql"] cybersecurity
           data_analyst Hov Hsz).
Defined.

(** ** The endpoint [match_top] *)

(** [find] returns nothing exactly when no entry satisfies the test. *)
Lemma find_none_iff {A : Type} (f : A → bool) (l : list A) :
  find f l = None ↔ ∀ x, x ∈ l → f x = false.
Proof.
  induction l as [|y l IH]; simpl.
  - split; [|done]. intros _ x Hx. by apply elem_of_nil in Hx.
  - destruct (f y) eqn:E.
    + split; [done|]. intros H. rewrite (H y) in E; [done|]. by left.
    + rewrite IH. split.
      * intros H x Hx. apply elem_of_cons in Hx as [-> | Hx]; auto.
      * intros H x Hx. apply H. by right.
Qed.

(** X9: the endpoint answers with a list exactly when the database is
    configured and some student has the e-mail of the request; without a
    database the answer is the error 500, without such a student the
    error 404. *)
Theorem X9_match_top_outcome (lower : string → string) (db : option Database)
    (req : MatchRequest.t) :
  ((∃ res, match_top lower db req = inr res)
   ↔ ∃ d u, db = Some d ∧ u ∈ student d
            ∧ StudentDoc.email u = MatchRequest.email req)
  ∧ (match_top lower db req = inl (HTTPError 500 "Database not configured")
     ↔ db = None)
  ∧ (match_top lower db req = inl (HTTPError 404 "User not found")
     ↔ ∃ d, db = Some d
            ∧ ∀ u, u ∈ student d → StudentDoc.email u ≠ MatchRequest.email req).
Proof.
  unfold match_top. destruct db as [d|].
  - destruct (find _ (student d)) as [user|] eqn:E.
    + apply find_some in E as [Hin Heq]. apply bool_decide_eq_true in Heq.
      apply list_elem_of_In in Hin.
      split; [|split].
      * split; [|by eauto]. intros _. by exists d, user.
      * split; discriminate.
      * split; [discriminate|]. intros (d' & [= <-] & H). by destruct (H user).
    + pose proof (proj1 (find_none_iff _ _) E) as Hnone.
      split; [|split].
      * split; [by intros [? ?]|]. intros (d' & u & [= <-] & Hu & Hm).
        apply Hnone in Hu. by apply bool_decide_eq_false in Hu.
      * split; discriminate.
      * split; [|done]. intros _. exists d. split; [done|].
        intros u Hu. apply Hnone in Hu. by apply bool_decide_eq_false in Hu.
  - split; [|split].
    + split; [by intros [? ?] | by intros (? & ? & ? & _)].
    + done.
    + split; [discriminate | by intros (? & ? & _)].
Qed.

Lemma X9_match_top_outcome_witness :
  (∃ d u, Some example_db = Some d ∧ u ∈ student d
          ∧ StudentDoc.email u
            = MatchRequest.email (MatchRequest.Build "ravi@example.com" 5))
  ∧ ∃ res, match_top str_lower (Some example_db)
             (MatchRequest.Build "ravi@example.com" 5) = inr res.
Proof.
  assert (∃ d u, Some example_db = Some d ∧ u ∈ student d
                 ∧ StudentDoc.email u
                   = MatchRequest.email (MatchRequest.Build "ravi@example.com" 5))
    as H.
  { exists example_db, (student_view ravi). split; [done|]. split; [|done].
    apply elem_of_cons. right. apply elem_of_cons. by left. }
  split; [exact H|].
  exact (proj2 (proj1 (X9_match_top_outcome str_lower (Some example_db)
                         (MatchRequest.Build "ravi@example.com" 5))) H).
Defined.

(** X10: every list the endpoint returns is sorted by decreasing score,
    holds only positive scores, is no longer than the [internship]
    collection and, for a limit [>= 0], no longer than the limit. *)
Theorem X10_match_top_response (lower : string → string) (d : Database)
    (req : MatchRequest.t) (res : list MatchResult.t) :
  match_top lower (Some d) req = inr res →
  StronglySorted (descending MatchResult.score) res
  ∧ Forall (λ s, 0 < MatchResult.score s)%Q res
  ∧ (length res ≤ length (internship d))%nat
  ∧ (0 ≤ MatchRequest.limit req →
     Z.of_nat (length res) ≤ MatchRequest.limit req).
Proof.
  unfold match_top. destruct (find _ (student d)) as [user|]; [|discriminate].
  intros [= <-]. unfold rank.
  set (full := ranked lower _ (internship d)).
  pose proof (slice_to_sublist full (MatchRequest.limit req)) as Hsub.
  split; [|split; [|split]].
  - eapply StronglySorted_sublist; [exact Hsub | apply ranked_sorted].
  - apply Forall_forall. intros s Hs.
    pose proof (ranked_positive lower
                  (map lower (default [] (StudentDoc.preferences user)))
                  (internship d)) as Hpos.
    rewrite Forall_forall in Hpos. apply Hpos. by eapply elem_of_sublist.
  - etrans; [by apply sublist_length|]. apply length_ranked.
  - intros Hl. rewrite slice_to_nonneg by done. rewrite length_take. lia.
Qed.

Lemma X10_match_top_response_witness :
  match_top str_lower (Some example_db) (MatchRequest.Build "asha@example.com" 5)
  = inr (rank str_lower ["react"] samples 5)
  ∧ StronglySorted (descending MatchResult.score)
      (rank str_lower ["react"] samples 5)
  ∧ Forall (λ s, 0 < MatchResult.score s)%Q (rank str_lower ["react"] samples 5)
  ∧ (length (rank str_lower ["react"] samples 5) ≤ length (internship example_db))%nat
  ∧ (0 ≤ MatchRequest.limit (MatchRequest.Build "asha@example.com" 5) →
     Z.of_nat (length (rank str_lower ["react"] samples 5))
     ≤ MatchRequest.limit (MatchRequest.Build "asha@example.com" 5)).
Proof.
  assert (match_top str_lower (Some example_db)
            (MatchRequest.Build "asha@example.com" 5)
          = inr (rank str_lower ["react"] samples 5)) as H by reflexivity.
  split; [exact H|].
  exact (X10_match_top_response str_lower example_db
           (MatchRequest.Build "asha@example.com" 5)
           (rank str_lower ["react"] samples 5) H).
Defined.

(** X11: a student whose document has no [preferences] key, or an empty
    list under it, gets an empty list, whatever the catalog and the
    limit. *)
Theorem X11_match_top_no_preferences (lower : string → string) (d : Database)
    (req : MatchRequest.t) (user : StudentDoc.t) :
  find (λ u, bool_decide (StudentDoc.email u = MatchRequest.email req))
       (student d) = Some user →
  StudentDoc.preferences user = None ∨ StudentDoc.preferences user = Some [] →
  match_top lower (Some d) req = inr [].
Proof.
  intros E Hp. unfold match_top. rewrite E. f_equal.
  assert (default [] (StudentDoc.preferences user) = []) as ->
    by (by destruct Hp as [-> | ->]).
  unfold rank. simpl map. rewrite ranked_no_prefs.
  unfold slice_to. destruct (0 <=? _); apply take_nil.
Qed.

Lemma X11_match_top_no_preferences_witness :
  find (λ u, bool_decide (StudentDoc.email u
                          = MatchRequest.email
                              (MatchRequest.Build "ravi@example.com" 5)))
       (student example_db) = Some (student_view ravi)
  ∧ (StudentDoc.preferences (student_view ravi) = None
     ∨ StudentDoc.preferences (student_view ravi) = Some [])
  ∧ match_top str_lower (Some example_db)
      (MatchRequest.Build "ravi@example.com" 5) = inr [].
Proof.
  assert (find (λ u, bool_decide (StudentDoc.email u
                                  = MatchRequest.email
                                      (MatchRequest.Build "ravi@example.com" 5)))
               (student example_db) = Some (student_view ravi)) as Hf
    by reflexivity.
  assert (StudentDoc.preferences (student_view ravi) = None
          ∨ StudentDoc.preferences (student_view ravi) = Some []) as Hp
    by (left; reflexivity).
  split; [exact Hf|]. split; [exact Hp|].
  exact (X11_match_top_no_preferences str_lower example_db
           (MatchRequest.Build "ravi@example.com" 5) (student_view ravi) Hf Hp).
Defined.

(** ** Splitting, joining and stripping *)

Section StringFacts.
Context (isspace : ascii → bool).
Implicit Types (s t w : string) (c sep : ascii) (l : list string).

Lemma split_go_no_sep sep s :
  contains sep s = false → split_go sep s = (s, []).
Proof.
  induction s as [|c s IH]; simpl; [done|].
  intros H. apply orb_false_iff in H as [Hc Hs].
  rewrite (IH Hs), Hc. done.
Qed.

Lemma split_no_sep sep s : contains sep s = false → split sep s = [s].
Proof. intros H. unfold split. by rewrite split_go_no_sep. Qed.

Lemma split_app sep s t :
  contains sep s = false →
  split sep (s +:+ String sep t) = s :: split sep t.
Proof.
  unfold split. induction s as [|c s IH]; simpl.
  - intros _. rewrite bool_decide_eq_true_2 by done.
    by destruct (split_go sep t).
  - intros H. apply orb_false_iff in H as [Hc Hs].
    specialize (IH Hs).
    destruct (split_go sep (s +:+ String sep t)) as [w ws].
    rewrite Hc. by simplify_eq.
Qed.

(** Splitting undoes joining when no piece holds the separator. *)
Lemma split_join sep l :
  l ≠ [] → Forall (λ w, contains sep w = false) l →
  split sep (join (String sep EmptyString) l) = l.
Proof.
  intros Hne H. induction H as [|w l Hw Hl IH]; [done|].
  destruct l as [|w' l].
  - simpl. by apply split_no_sep.
  - change (join (String sep "") (w :: w' :: l))
      with (w +:+ String sep "" +:+ join (String sep "") (w' :: l)).
    change (String sep "" +:+ join (String sep "") (w' :: l))
      with (String sep (join (String sep "") (w' :: l))).
    rewrite split_app by done. by rewrite IH.
Qed.

(** No piece of a split holds the separator. *)
Lemma split_pieces sep s : Forall (λ w, contains sep w = false) (split sep s).
Proof.
  unfold split. induction s as [|c s IH]; simpl.
  - by repeat constructor.
  - destruct (split_go sep s) as [w ws].
    apply Forall_cons in IH as [Hw Hws].
    destruct (bool_decide (c = sep)) eqn:E.
    + by repeat constructor.
    + constructor; [|done]. simpl. by rewrite E, Hw.
Qed.

Lemma join_empty sep l :
  join (String sep EmptyString) l = EmptyString → l = [] ∨ l = [EmptyString].
Proof.
  destruct l as [|w [|w' l]]; simpl; [by left | intros ->; by right |].
  by destruct w.
Qed.

(** [lstrip] leaves the empty string or a string that starts with a
    character that is no whitespace. *)
Lemma lstrip_head s :
  lstrip isspace s = EmptyString
  ∨ ∃ c s', lstrip isspace s = String c s' ∧ isspace c = false.
Proof.
  induction s as [|c s IH]; simpl; [by left|].
  destruct (isspace c) eqn:E; [done|]. right. by exists c, s.
Qed.

Lemma lstrip_fixed c s : isspace c = false → lstrip isspace (String c s) = String c s.
Proof. intros E. simpl. by rewrite E. Qed.

Lemma rstrip_head c s :
  isspace c = false → ∃ s', rstrip isspace (String c s) = String c s'.
Proof.
  intros E. simpl. destruct (rstrip isspace s); rewrite ?E; eauto.
Qed.

Lemma rstrip_idem s : rstrip isspace (rstrip isspace s) = rstrip isspace s.
Proof.
  induction s as [|c s IH]; simpl; [done|].
  destruct (rstrip isspace s) as [|a t] eqn:E.
  - destruct (isspace c) eqn:Ec; simpl; [done|]. by rewrite Ec.
  - simpl in IH. simpl.
    destruct (rstrip isspace t) as [|b t'] eqn:Et.
    + destruct (isspace a) eqn:Ea; [done|]. by rewrite <- IH. 
    + by rewrite <- IH.
Qed.

Lemma strip_idem s : strip isspace (strip isspace s) = strip isspace s.
Proof.
  unfold strip. destruct (lstrip_head s) as [-> | (c & s' & -> & Ec)]; [done|].
  destruct (rstrip_head c s' Ec) as [t Et]. rewrite Et.
  rewrite lstrip_fixed by done. rewrite <- Et. apply rstrip_idem.
Qed.

Lemma contains_lstrip c s :
  contains c s = false → contains c (lstrip isspace s) = false.
Proof.
  induction s as [|a s IH]; simpl; [done|].
  intros H. destruct (isspace a); [|done].
  apply orb_false_iff in H as [_ H]. by apply IH.
Qed.

Lemma contains_rstrip c s :
  contains c s = false → contains c (rstrip isspace s) = false.
Proof.
  induction s as [|a s IH]; simpl; [done|].
  intros H. apply orb_false_iff in H as [Ha Hs]. specialize (IH Hs).
  destruct (rstrip isspace s) as [|b t].
  - destruct (isspace a); [done|]. simpl. by rewrite Ha.
  - simpl. simpl in IH. by rewrite Ha, IH.
Qed.

Lemma contains_strip c s :
  contains c s = false → contains c (strip isspace s) = false.
Proof. intros H. by apply contains_rstrip, contains_lstrip. Qed.

(** The comprehension keeps the stripped pieces that are not empty. *)
Lemma comprehension_filter l :
  (p ← l; if bool_decide (strip isspace p ≠ EmptyString)
          then [strip isspace p] else [])
  = filter (λ t, t ≠ EmptyString) (strip isspace <$> l).
Proof.
  induction l as [|p l IH]; [done|].
  rewrite bind_cons, fmap_cons, filter_cons, IH.
  destruct (decide (strip isspace p ≠ "")) as [H|H].
  - by rewrite bool_decide_eq_true_2.
  - by rewrite bool_decide_eq_false_2.
Qed.

Lemma parse_preferences_some c s :
  parse_preferences isspace (Some (String c s))
  = filter (λ t, t ≠ EmptyString) (strip isspace <$> split "," (String c s)).
Proof. unfold parse_preferences. apply comprehension_filter. Qed.

End StringFacts.

Section ParseFacts.
Context (isspace : ascii → bool).

Lemma parse_preferences_clean (preferences : option string) :
  Forall (λ t, t ≠ EmptyString ∧ strip isspace t = t ∧ contains "," t = false)
    (parse_preferences isspace preferences).
Proof.
  destruct preferences as [[|c s]|]; [constructor| |constructor].
  rewrite parse_preferences_some.
  apply Forall_forall. intros t Ht.
  apply list_elem_of_filter in Ht as [Hne Ht].
  apply list_elem_of_fmap in Ht as (p & -> & Hp).
  split; [done|]. split; [apply strip_idem|].
  apply contains_strip.
  pose proof (split_pieces "," (String c s)) as Hall.
  rewrite Forall_forall in Hall. by apply Hall.
Qed.

Lemma parse_preferences_join (raws : list string) :
  Forall (λ r, contains "," r = false) raws →
  parse_preferences isspace (Some (join "," raws))
  = filter (λ t, t ≠ EmptyString) (strip isspace <$> raws).
Proof.
  intros H. destruct (join "," raws) as [|c s] eqn:E.
  - apply join_empty in E as [-> | ->]; done.
  - rewrite parse_preferences_some, <- E.
    rewrite split_join; [done| |done]. by intros ->.
Qed.

Lemma filter_all {A : Type} (P : A → Prop) `{!∀ x, Decision (P x)} (l : list A) :
  Forall P l → filter P l = l.
Proof.
  induction 1 as [|x l Hx _ IH]; [done|]. by rewrite filter_cons_True, IH.
Qed.

(** Only whitespace to strip: nothing is left. *)
Lemma lstrip_blank (s : string) :
  Forall (λ c, isspace c = true) (String.list_ascii_of_string s) →
  lstrip isspace s = EmptyString.
Proof.
  induction s as [|c s IH]; simpl; [done|].
  intros H. apply Forall_cons in H as [-> H]. by apply IH.
Qed.

Lemma split_blank (s : string) :
  Forall (λ c, c = ","%char ∨ isspace c = true) (String.list_ascii_of_string s) →
  Forall (λ w, strip isspace w = EmptyString) (split "," s).
Proof.
  unfold split. induction s as [|c s IH]; simpl.
  - intros _. by repeat constructor.
  - intros H. apply Forall_cons in H as [Hc H]. specialize (IH H).
    destruct (split_go "," s) as [w ws].
    apply Forall_cons in IH as [Hw Hws].
    destruct (bool_decide (c = ","%char)) eqn:E.
    + by repeat constructor.
    + apply bool_decide_eq_false in E. destruct Hc as [? | Hc]; [done|].
      constructor; [|done]. unfold strip in *. simpl. by rewrite Hc.
Qed.

End ParseFacts.

(** X12: every parsed preference is non-empty, has no whitespace at
    either end and holds no comma. *)
Theorem X12_parse_preferences_clean (isspace : ascii → bool)
    (preferences : option string) :
  Forall (λ t, t ≠ EmptyString ∧ strip isspace t = t ∧ contains "," t = false)
    (parse_preferences isspace preferences).
Proof. apply parse_preferences_clean. Qed.

(** X13: parsing a comma-separated line of comma-free entries strips
    each entry and drops the entries that are empty or only whitespace,
    keeping order and repetitions. *)
Theorem X13_parse_preferences_join (isspace : ascii → bool)
    (raws : list string) :
  Forall (λ r, contains "," r = false) raws →
  parse_preferences isspace (Some (join "," raws))
  = filter (λ t, t ≠ EmptyString) (strip isspace <$> raws).
Proof. apply parse_preferences_join. Qed.

Lemma X13_parse_preferences_join_witness :
  Forall (λ r, contains "," r = false) [" Python "; ""; "data science"; "  "]
  ∧ parse_preferences ascii_isspace
      (Some (join "," [" Python "; ""; "data science"; "  "]))
    = filter (λ t, t ≠ EmptyString)
        (strip ascii_isspace <$> [" Python "; ""; "data science"; "  "]).
Proof.
  assert (Forall (λ r, contains "," r = false)
            [" Python "; ""; "data science"; "  "]) as H
    by (repeat constructor).
  split; [exact H|].
  exact (X13_parse_preferences_join ascii_isspace
           [" Python "; ""; "data science"; "  "] H).
Defined.

(** X14: round trip: joining a parsed preference list with commas and
    parsing the line again gives the same list. *)
Theorem X14_parse_preferences_round_trip (isspace : ascii → bool)
    (preferences : option string) :
  parse_preferences isspace
    (Some (join "," (parse_preferences isspace preferences)))
  = parse_preferences isspace preferences.
Proof.
  pose proof (parse_preferences_clean isspace preferences) as H.
  set (l := parse_preferences isspace preferences) in *. clearbody l.
  rewrite parse_preferences_join
    by (eapply Forall_impl; [exact H|]; by intros t (_ & _ & ?)).
  assert (strip isspace <$> l = l) as ->.
  { induction H as [|t l (_ & Ht & _) _ IH]; [done|].
    by rewrite fmap_cons, Ht, IH. }
  apply filter_all. eapply Forall_impl; [exact H|]. by intros t (? & _).
Qed.

(** X15: a line of nothing but commas and whitespace, like no line at
    all, gives no preference. *)
Theorem X15_parse_preferences_blank (isspace : ascii → bool) (s : string) :
  Forall (λ c, c = ","%char ∨ isspace c = true) (String.list_ascii_of_string s) →
  parse_preferences isspace (Some s) = []
  ∧ parse_preferences isspace None = [].
Proof.
  intros H. split; [|done].
  destruct s as [|c s]; [done|].
  rewrite parse_preferences_some. apply filter_none.
  apply Forall_forall. intros t Ht.
  apply list_elem_of_fmap in Ht as (w & -> & Hw).
  pose proof (split_blank isspace _ H) as Hall.
  rewrite Forall_forall in Hall. rewrite (Hall w Hw). by intros ?.
Qed.

Lemma X15_parse_preferences_blank_witness :
  Forall (λ c, c = ","%char ∨ ascii_isspace c = true)
    (String.list_ascii_of_string " , ,, ")
  ∧ parse_preferences ascii_isspace (Some " , ,, ") = []
  ∧ parse_preferences ascii_isspace None = [].
Proof.
  assert (Forall (λ c, c = ","%char ∨ ascii_isspace c = true)
            (String.list_ascii_of_string " , ,, ")) as H
    by (repeat constructor; (by left) || (by right)).
  split; [exact H|].
  exact (X15_parse_preferences_blank ascii_isspace " , ,, " H).
Defined.

(** ** The sign-in endpoint *)

Section UpdateOne.
Implicit Types (users : list User.t) (f : User.t → User.t).

Lemma length_update_one users id f :
  length (update_one users id f) = length users.
Proof.
  induction users as [|u users IH]; simpl; [done|].
  destruct (bool_decide (User.id u = id)); simpl; by rewrite ?IH.
Qed.

(** A field that [f] keeps is kept in the whole collection. *)
Lemma update_one_keeps {B : Type} (g : User.t → B) users id f :
  (∀ u, g (f u) = g u) → g <$> update_one users id f = g <$> users.
Proof.
  intros Hg. induction users as [|u users IH]; simpl; [done|].
  destruct (bool_decide (User.id u = id)); rewrite !fmap_cons.
  - by rewrite Hg.
  - by rewrite IH.
Qed.

(** Documents with another id stay where they are. *)
Lemma update_one_other users id f (k : nat) (u : User.t) :
  users !! k = Some u → User.id u ≠ id → update_one users id f !! k = Some u.
Proof.
  revert k. induction users as [|v users IH]; intros k Hk Hne; [done|].
  simpl. destruct (bool_decide (User.id v = id)) eqn:E.
  - apply bool_decide_eq_true in E. destruct k as [|k]; [|done].
    simpl in Hk. by simplify_eq.
  - destruct k as [|k]; [done|]. simpl in *. by apply IH.
Qed.

(** With unique ids, the document found by e-mail is the one that an
    update by its id changes. *)
Lemma find_update_one users (user : User.t) f (email : string) :
  NoDup (User.id <$> users) →
  (∀ u, User.email (f u) = User.email u) →
  find (λ u, bool_decide (User.email u = email)) users = Some user →
  find (λ u, bool_decide (User.email u = email))
       (update_one users (User.id user) f) = Some (f user).
Proof.
  intros Hnd Hf. induction users as [|u users IH]; simpl; [done|].
  rewrite fmap_cons in Hnd. apply NoDup_cons in Hnd as [Hu Hnd].
  destruct (bool_decide (User.email u = email)) eqn:E.
  - intros [= ->]. rewrite bool_decide_eq_true_2 by done. simpl.
    by rewrite Hf, E.
  - intros Hfind.
    assert (User.id u ≠ User.id user) as Hne.
    { intros Heq. apply Hu. rewrite Heq. apply list_elem_of_fmap.
      exists user. split; [done|].
      apply find_some in Hfind as [Hin _]. by apply list_elem_of_In. }
    rewrite bool_decide_eq_false_2 by done. simpl. rewrite E. by apply IH.
Qed.

Lemma find_student_view users (email : string) :
  find (λ s, bool_decide (StudentDoc.email s = email)) (student_view <$> users)
  = student_view <$> find (λ u, bool_decide (User.email u = email)) users.
Proof.
  induction users as [|u users IH]; [done|].
  rewrite fmap_cons. simpl. by destruct (bool_decide (User.email u = email)).
Qed.

End UpdateOne.

Section PathFacts.

Lemma split_app_sep (sep : ascii) (s t : string) :
  split sep (s +:+ String sep t) = split sep s ++ split sep t.
Proof.
  unfold split. induction s as [|c s IH]; simpl.
  - rewrite bool_decide_eq_true_2 by done. by destruct (split_go sep t).
  - destruct (split_go sep (s +:+ String sep t)) as [w ws].
    destruct (split_go sep s) as [w1 ws1].
    destruct (split_go sep t) as [w' ws'].
    simpl in IH. injection IH as -> ->.
    by destruct (bool_decide (c = sep)).
Qed.

Lemma last_split_app (sep : ascii) (s t : string) :
  last (split sep (s +:+ String sep t)) = last (split sep t).
Proof.
  rewrite split_app_sep. unfold split at 2 3.
  destruct (split_go sep t) as [w' ws']. apply last_app_cons.
Qed.

Lemma endswith_app (c : ascii) (s : string) :
  endswith c s = true → ∃ s', s = s' +:+ String c EmptyString.
Proof.
  induction s as [|a s IH]; [done|]. destruct s as [|b s].
  - simpl. intros H. apply bool_decide_eq_true in H as ->. by exists "".
  - intros H. destruct (IH H) as [s' ->]. by exists (String a s').
Qed.

Lemma string_app_assoc (s t u : string) : (s +:+ t) +:+ u = s +:+ (t +:+ u).
Proof.
  induction s as [|c s IH]; [done|].
  change (String c ((s +:+ t) +:+ u) = String c (s +:+ (t +:+ u))).
  by f_equal.
Qed.

Lemma basename_no_slash (s : string) : contains "/" s = false → basename s = s.
Proof. intros H. unfold basename. by rewrite split_no_sep. Qed.

(** A name without a slash is the base name of its path under any
    directory. *)
Lemma basename_path_join (dir name : string) :
  contains "/" name = false → basename (path_join dir name) = name.
Proof.
  intros H. unfold path_join.
  assert (startswith "/" name = false) as ->.
  { destruct name as [|a name]; [done|]. simpl in *.
    by apply orb_false_iff in H as [-> _]. }
  destruct (bool_decide (dir = "")) eqn:Ed; simpl.
  - apply bool_decide_eq_true in Ed as ->. by apply basename_no_slash.
  - assert (∀ d, basename (d +:+ String "/" name) = name) as Hbase.
    { intros d. unfold basename. rewrite last_split_app.
      by rewrite split_no_sep. }
    destruct (endswith "/" dir) eqn:Ee.
    + apply endswith_app in Ee as [d ->]. rewrite string_app_assoc.
      apply Hbase.
    + apply Hbase.
Qed.

End PathFacts.

Section SigninFacts.
Context (isspace : ascii → bool).
Context (hash_password : string → string).
Context (verify_password : string → string → bool).
Context (Files : Type) (write_file : Files → string → string → option Files).
Context (create_document : list User.t → Student.t → list User.t * string).
Context (cwd : string).

Local Abbreviation run :=
  (signin_users isspace hash_password verify_password Files write_file
     create_document cwd).
Local Abbreviation by_email email :=
  (λ u : User.t, bool_decide (User.email u = email)).

Implicit Types (users : list User.t) (files : Files) (now : Z).
Implicit Types (email password : string) (name preferences : option string).
Implicit Types (resume : option UploadFile.t).

(** The two ends of the branch for an existing user. *)
Lemma answer_existing_cases users (user : User.t) now email name
    (pref_list : list string) (resume_url : option string) (update : Update.t) :
  ∃ body,
    answer_existing users user now email name pref_list resume_url update
    = (Ok body,
       if Update.is_empty update then users
       else update_one users (User.id user) (set_fields update now))
    ∧ AuthResponse.preferences body
      = default pref_list
          (User.preferences
             (if Update.is_empty update then user
              else set_fields update now user))
    ∧ AuthResponse.resume_url body
      = default resume_url
          (User.resume_url
             (if Update.is_empty update then user
              else set_fields update now user)).
Proof.
  unfold answer_existing. destruct (Update.is_empty update); eauto.
Qed.

(** What the branch for an existing user does to the collection. *)
Lemma signin_existing_users users files now email password name preferences
    resume (user : User.t) reply users' files' :
  find (by_email email) users = Some user →
  run users files now email password name preferences resume
  = (reply, users', files') →
  users' = users
  ∨ ∃ update, users' = update_one users (User.id user) (set_fields update now).
Proof.
  intros Hfind. unfold signin_users. rewrite Hfind.
  destruct (verify_password _ _); simpl; [|intros [= <- <- <-]; by left].
  destruct resume as [r|].
  - destruct (store_resume _ _ _ _ _ _) as [[files1 url]|];
      [|intros [= <- <- <-]; by left].
    match goal with
    | |- context [answer_existing ?a ?b ?c ?d ?e ?f ?g ?h] =>
        destruct (answer_existing_cases a b c d e f g h) as (body & -> & _)
    end.
    intros [= <- <- <-]. destruct (Update.is_empty _); eauto.
  - match goal with
    | |- context [answer_existing ?a ?b ?c ?d ?e ?f ?g ?h] =>
        destruct (answer_existing_cases a b c d e f g h) as (body & -> & _)
    end.
    intros [= <- <- <-]. destruct (Update.is_empty _); eauto.
Qed.

(** The update that the branch for an existing user builds. *)
Lemma signin_existing_ok users files now email password name preferences
    resume (user : User.t) body users' files' :
  find (by_email email) users = Some user →
  run users files now email password name preferences resume
  = (Ok body, users', files') →
  ∃ (url : option string) (update : Update.t),
    Update.preferences update
      = match parse_preferences isspace preferences with
        | [] => None
        | _ :: _ => Some (parse_preferences isspace preferences)
        end
    ∧ Update.resume_url update = url
    ∧ match resume with
      | None => url = None ∧ files' = files
      | Some r =>
          ∃ u, url = Some u
               ∧ store_resume Files write_file cwd files (User.id user) r
                 = Some (files', u)
      end
    ∧ users' = (if Update.is_empty update then users
                else update_one users (User.id user) (set_fields update now))
    ∧ AuthResponse.preferences body
      = default (parse_preferences isspace preferences)
          (User.preferences
             (if Update.is_empty update then user
              else set_fields update now user))
    ∧ AuthResponse.resume_url body
      = default url
          (User.resume_url
             (if Update.is_empty update then user
              else set_fields update now user)).
Proof.
  intros Hfind. unfold signin_users. rewrite Hfind.
  destruct (verify_password _ _); simpl; [|discriminate].
  destruct resume as [r|].
  - destruct (store_resume _ _ _ _ _ _) as [[files1 url]|] eqn:Es;
      [|discriminate].
    match goal with
    | |- context [answer_existing ?a ?b ?c ?d ?e ?f ?g ?h] =>
        destruct (answer_existing_cases a b c d e f g h)
          as (body0 & -> & Hp & Hr);
        intros [= <- <- <-]; exists (Some url), h
    end.
    split; [by destruct (parse_preferences isspace preferences)|].
    split; [done|]. split; [by exists url|]. done.
  - match goal with
    | |- context [answer_existing ?a ?b ?c ?d ?e ?f ?g ?h] =>
        destruct (answer_existing_cases a b c d e f g h)
          as (body0 & -> & Hp & Hr);
        intros [= <- <- <-]; exists None, h
    end.
    split; [by destruct (parse_preferences isspace preferences)|]. done.
Qed.


(** X17: a request for a stored e-mail, however it ends, leaves the
    number of documents and the id, e-mail and password hash of each of
    them as they were. *)
Theorem X17_signin_keeps_identity users files now email password name
    preferences resume (user : User.t) reply users' files' :
  find (by_email email) users = Some user →
  run users files now email password name preferences resume
  = (reply, users', files') →
  (λ u, (User.id u, User.email u, User.password_hash u)) <$> users'
  = (λ u, (User.id u, User.email u, User.password_hash u)) <$> users.
Proof.
  intros Hfind Hrun.
  destruct (signin_existing_users _ _ _ _ _ _ _ _ _ _ _ _ Hfind Hrun)
    as [-> | [update ->]]; [done|].
  by apply update_one_keeps.
Qed.

(** The preferences under the e-mail after a successful request. *)
Lemma signin_existing_preferences users files now email password name
    preferences resume (user : User.t) body users' files' :
  NoDup (User.id <$> users) →
  find (by_email email) users = Some user →
  run users files now email password name preferences resume
  = (Ok body, users', files') →
  ∃ user',
    find (by_email email) users' = Some user'
    ∧ User.preferences user'
      = match parse_preferences isspace preferences with
        | [] => User.preferences user
        | _ :: _ => Some (parse_preferences isspace preferences)
        end
    ∧ AuthResponse.preferences body = default [] (User.preferences user').
Proof.
  intros Hnd Hfind Hrun.
  destruct (signin_existing_ok _ _ _ _ _ _ _ _ _ _ _ _ Hfind Hrun)
    as (url & update & Hup & _ & _ & -> & Hbody & _).
  rewrite Hbody. clear Hbody Hrun.
  destruct (Update.is_empty update) eqn:Hempty.
  - exists user. split; [done|].
    assert (Update.preferences update = None) as Hnone.
    { unfold Update.is_empty in Hempty.
      by destruct (Update.name update), (Update.preferences update). }
    rewrite Hnone in Hup.
    destruct (parse_preferences isspace preferences); [done|discriminate].
  - exists (set_fields update now user).
    split; [by apply find_update_one|].
    unfold set_fields. simpl. rewrite Hup.
    by destruct (parse_preferences isspace preferences).
Qed.

(** X18: after a successful request for a stored e-mail (ids being
    unique), the document found under that e-mail holds the parsed
    preferences if there are any, replacing the old ones, and its old
    preferences otherwise; the response shows the preferences of that
    document. *)
Theorem X18_signin_preferences users files now email password name
    preferences resume (user : User.t) body users' files' :
  NoDup (User.id <$> users) →
  find (by_email email) users = Some user →
  run users files now email password name preferences resume
  = (Ok body, users', files') →
  ∃ user',
    find (by_email email) users' = Some user'
    ∧ User.preferences user'
      = match parse_preferences isspace preferences with
        | [] => User.preferences user
        | _ :: _ => Some (parse_preferences isspace preferences)
        end
    ∧ AuthResponse.preferences body = default [] (User.preferences user').
Proof. apply signin_existing_preferences. Qed.

(** X19: a request for a stored e-mail never changes a document with
    another id than the one found under the e-mail. *)
Theorem X19_signin_others_untouched users files now email password name
    preferences resume (user : User.t) reply users' files' :
  find (by_email email) users = Some user →
  run users files now email password name preferences resume
  = (reply, users', files') →
  ∀ (k : nat) (u : User.t),
    users !! k = Some u → User.id u ≠ User.id user → users' !! k = Some u.
Proof.
  intros Hfind Hrun k u Hk Hne.
  destruct (signin_existing_users _ _ _ _ _ _ _ _ _ _ _ _ Hfind Hrun)
    as [-> | [update ->]]; [done|].
  by apply update_one_other.
Qed.

(** X20: sign-in and matching compose: after a successful request for a
    stored e-mail (ids being unique), [match_top] for that e-mail ranks
    by the preferences just submitted or, when none were submitted, by
    the ones stored before. *)
Theorem X20_signin_then_match users files now email password name
    preferences resume (user : User.t) body users' files'
    (lower : string → string) (catalog : list Doc.t) (limit : Z) :
  NoDup (User.id <$> users) →
  find (by_email email) users = Some user →
  run users files now email password name preferences resume
  = (Ok body, users', files') →
  match_top lower
    (Some {| student := student_view <$> users'; internship := catalog |})
    (MatchRequest.Build email limit)
  = inr (rank lower
           (match parse_preferences isspace preferences with
            | [] => default [] (User.preferences user)
            | _ :: _ => parse_preferences isspace preferences
            end)
           catalog limit).
Proof.
  intros Hnd Hfind Hrun.
  destruct (signin_existing_preferences _ _ _ _ _ _ _ _ _ _ _ _ Hnd Hfind Hrun)
    as (user' & Hfind' & Hprefs & _).
  unfold match_top. simpl. rewrite find_student_view, Hfind'. simpl.
  rewrite Hprefs. by destruct (parse_preferences isspace preferences).
Qed.


(** X22: when a known user uploads a resume whose stored name
    [<id>_<filename>] holds no slash, the response names it
    [/uploads/<id>_<filename>], and the file was written under that name
    in the upload directory. *)
Theorem X22_signin_resume_url users files now email password name
    preferences (r : UploadFile.t) (user : User.t) body users' files' :
  find (by_email email) users = Some user →
  contains "/" (User.id user +:+ "_" +:+ UploadFile.filename r) = false →
  run users files now email password name preferences (Some r)
  = (Ok body, users', files') →
  AuthResponse.resume_url body
  = Some ("/uploads/" +:+ User.id user +:+ "_" +:+ UploadFile.filename r)
  ∧ write_file files
      (path_join (UPLOAD_DIR cwd)
         (User.id user +:+ "_" +:+ UploadFile.filename r))
      (UploadFile.content r)
    = Some files'.
Proof.
  intros Hfind Hname Hrun.
  destruct (signin_existing_ok _ _ _ _ _ _ _ _ _ _ _ _ Hfind Hrun)
    as (url & update & _ & Hurl & (u & -> & Hstore) & _ & _ & ->).
  destruct update as [upd_name upd_prefs upd_url]. simpl in Hurl. subst upd_url.
  assert (∀ x, Update.is_empty (Update.Build upd_name upd_prefs (Some x)) = false)
    as He by (intros x; by destruct upd_name, upd_prefs).
  rewrite He. unfold set_fields. simpl.
  unfold store_resume in Hstore.
  destruct (write_file _ _ _) as [files1|]; [|discriminate].
  injection Hstore as -> <-. split; [|done].
  by rewrite basename_path_join.
Qed.

End SigninFacts.

(** *** The sign-in properties on the example deployment *)

Local Abbreviation example_signin :=
  (signin_users ascii_isspace example_hash example_verify (gmap string string)
     example_write example_create "/srv/app").

Local Abbreviation by_email email :=
  (λ u : User.t, bool_decide (User.email u = email)).

Lemma example_run :
  example_signin example_users ∅ example_now "asha@example.com" "s3cret"
    (Some "Asha K") (Some " Python , sql ") (Some example_cv)
  = (Ok example_body, [asha_updated; ravi], example_files).
Proof. vm_compute. reflexivity. Qed.

Lemma example_find : find (by_email "asha@example.com") example_users = Some asha.
Proof. reflexivity. Qed.

Lemma example_ids : NoDup (User.id <$> example_users).
Proof. apply (bool_decide_unpack _). by vm_compute. Qed.


Lemma X17_signin_keeps_identity_witness :
  find (by_email "asha@example.com") example_users = Some asha
  ∧ example_signin example_users ∅ example_now "asha@example.com" "s3cret"
      (Some "Asha K") (Some " Python , sql ") (Some example_cv)
    = (Ok example_body, [asha_updated; ravi], example_files)
  ∧ (λ u, (User.id u, User.email u, User.password_hash u))
      <$> [asha_updated; ravi]
    = (λ u, (User.id u, User.email u, User.password_hash u)) <$> example_users.
Proof.
  split; [exact example_find|]. split; [exact example_run|].
  exact (X17_signin_keeps_identity _ _ _ _ _ _ _ _ _ _ _ _ _ _ _ _ _ _ _
           example_find example_run).
Defined.

Lemma X18_signin_preferences_witness :
  NoDup (User.id <$> example_users)
  ∧ find (by_email "asha@example.com") example_users = Some asha
  ∧ example_signin example_users ∅ example_now "asha@example.com" "s3cret"
      (Some "Asha K") (Some " Python , sql ") (Some example_cv)
    = (Ok example_body, [asha_updated; ravi], example_files)
  ∧ ∃ user',
      find (by_email "asha@example.com") [asha_updated; ravi] = Some user'
      ∧ User.preferences user'
        = match parse_preferences ascii_isspace (Some " Python , sql ") with
          | [] => User.preferences asha
          | _ :: _ =>
              Some (parse_preferences ascii_isspace (Some " Python , sql "))
          end
      ∧ AuthResponse.preferences example_body
        = default [] (User.preferences user').
Proof.
  split; [exact example_ids|]. split; [exact example_find|].
  split; [exact example_run|].
  exact (X18_signin_preferences _ _ _ _ _ _ _ _ _ _ _ _ _ _ _ _ _ _ _
           example_ids example_find example_run).
Defined.

Lemma X19_signin_others_untouched_witness :
  find (by_email "asha@example.com") example_users = Some asha
  ∧ example_signin example_users ∅ example_now "asha@example.com" "s3cret"
      (Some "Asha K") (Some " Python , sql ") (Some example_cv)
    = (Ok example_body, [asha_updated; ravi], example_files)
  ∧ example_users !! 1%nat = Some ravi
  ∧ User.id ravi ≠ User.id asha
  ∧ [asha_updated; ravi] !! 1%nat = Some ravi.
Proof.
  assert (example_users !! 1%nat = Some ravi) as Hk by reflexivity.
  assert (User.id ravi ≠ User.id asha) as Hne by discriminate.
  split; [exact example_find|]. split; [exact example_run|].
  split; [exact Hk|]. split; [exact Hne|].
  exact (X19_signin_others_untouched _ _ _ _ _ _ _ _ _ _ _ _ _ _ _ _ _ _ _
           example_find example_run 1%nat ravi Hk Hne).
Defined.

Lemma X20_signin_then_match_witness :
  NoDup (User.id <$> example_users)
  ∧ find (by_email "asha@example.com") example_users = Some asha
  ∧ example_signin example_users ∅ example_now "asha@example.com" "s3cret"
      (Some "Asha K") (Some " Python , sql ") (Some example_cv)
    = (Ok example_body, [asha_updated; ravi], example_files)
  ∧ match_top str_lower
      (Some {| student := student_view <$> [asha_updated; ravi];
               internship := samples |})
      (MatchRequest.Build "asha@example.com" 5)
    = inr (rank str_lower
             (match parse_preferences ascii_isspace (Some " Python , sql ") with
              | [] => default [] (User.preferences asha)
              | _ :: _ => parse_preferences ascii_isspace (Some " Python , sql ")
              end)
             samples 5).
Proof.
  split; [exact example_ids|]. split; [exact example_find|].
  split; [exact example_run|].
  exact (X20_signin_then_match _ _ _ _ _ _ _ _ _ _ _ _ _ _ _ _ _ _ _
           str_lower samples 5 example_ids example_find example_run).
Defined.


Lemma X22_signin_resume_url_witness :
  find (by_email "asha@example.com") example_users = Some asha
  ∧ contains "/" (User.id asha +:+ "_" +:+ UploadFile.filename example_cv)
    = false
  ∧ example_signin example_users ∅ example_now "asha@example.com" "s3cret"
      (Some "Asha K") (Some " Python , sql ") (Some example_cv)
    = (Ok example_body, [asha_updated; ravi], example_files)
  ∧ AuthResponse.resume_url example_body
    = Some ("/uploads/" +:+ User.id asha +:+ "_"
            +:+ UploadFile.filename example_cv)
  ∧ example_write ∅
      (path_join (UPLOAD_DIR "/srv/app")
         (User.id asha +:+ "_" +:+ UploadFile.filename example_cv))
      (UploadFile.content example_cv)
    = Some example_files.
Proof.
  assert (contains "/" (User.id asha +:+ "_" +:+ UploadFile.filename example_cv)
          = false) as Hn by reflexivity.
  split; [exact example_find|]. split; [exact Hn|]. split; [exact example_run|].
  exact (X22_signin_resume_url _ _ _ _ _ _ _ _ _ _ _ _ _ _ _ _ _ _ _
           example_find Hn example_run).
Defined.


(** ** The diagnostic endpoint and the seeding *)

Lemma error_report_differs (s : string) :
  "⚠️ Connected but Error: " +:+ s ≠ "✅ Connected & Working".
Proof.
  intros H. apply (f_equal (String.get 1)) in H. vm_compute in H. discriminate.
Qed.

(** X23: [test_database] reports "Connected" exactly when there is a
    handle; the listed collections are the first ten at most of those
    the handle names, and none without a handle or when the listing
    raises; only a successful listing is reported as working. *)
Theorem X23_test_database_status (db : option DbHandle.t)
    (getenv : string → option string) :
  let r := test_database db getenv in
  (TestResponse.connection_status r = "Connected" ↔ db ≠ None)
  ∧ (length (TestResponse.collections r) ≤ 10)%nat
  ∧ (∀ h names, db = Some h → DbHandle.list_collection_names h = inr names →
       TestResponse.collections r `prefix_of` names)
  ∧ (TestResponse.database r = "✅ Connected & Working"
     ↔ ∃ h names, db = Some h ∧ DbHandle.list_collection_names h = inr names)
  ∧ ((∀ h names, db = Some h → DbHandle.list_collection_names h ≠ inr names) →
       TestResponse.collections r = []).
Proof.
  intros r. unfold r, test_database.
  destruct db as [h|]; simpl.
  - destruct (DbHandle.list_collection_names h) as [e|names] eqn:El; simpl.
    + split; [by split|]. split; [lia|].
      split; [intros h' names' [= <-]; by rewrite El|].
      split; [|done]. split.
      * intros H. by apply error_report_differs in H.
      * intros (h' & names & [= <-] & H). by rewrite El in H.
    + split; [by split|]. split; [rewrite length_take; lia|].
      split.
      { intros h' names' [= <-]. rewrite El. intros [= <-]. apply prefix_take. }
      split; [split; [by eauto | done]|].
      intros H. by destruct (H h names).
  - split; [split; [discriminate | done]|]. split; [lia|]. split; [done|].
    split; [|done]. split; [discriminate | by intros (? & ? & ? & _)].
Qed.

Lemma X23_test_database_status_witness :
  Some example_handle = Some example_handle
  ∧ DbHandle.list_collection_names example_handle
    = inr ["student"; "internship"; "c3"; "c4"; "c5"; "c6"; "c7"; "c8"; "c9";
           "c10"; "c11"; "c12"]
  ∧ TestResponse.collections
      (test_database (Some example_handle) example_getenv)
      `prefix_of`
    ["student"; "internship"; "c3"; "c4"; "c5"; "c6"; "c7"; "c8"; "c9";
     "c10"; "c11"; "c12"].
Proof.
  assert (DbHandle.list_collection_names example_handle
          = inr ["student"; "internship"; "c3"; "c4"; "c5"; "c6"; "c7"; "c8";
                 "c9"; "c10"; "c11"; "c12"]) as H by reflexivity.
  split; [reflexivity|]. split; [exact H|].
  exact (proj1 (proj2 (proj2 (X23_test_database_status (Some example_handle)
                                example_getenv)))
           example_handle _ eq_refl H).
Defined.

(** X24: the two environment entries of the report only depend on the
    environment: each is "Set" exactly when the variable is defined and
    not empty, and the name of the database handle never reaches the
    response. *)
Theorem X24_test_database_env (db : option DbHandle.t)
    (getenv : string → option string) :
  let r := test_database db getenv in
  TestResponse.database_url r
    = Some (if truthy (getenv "DATABASE_URL") then "✅ Set" else "❌ Not Set")
  ∧ TestResponse.database_name r
    = Some (if truthy (getenv "DATABASE_NAME") then "✅ Set" else "❌ Not Set")
  ∧ ∀ db', TestResponse.database_name (test_database db' getenv)
           = TestResponse.database_name r.
Proof.
  intros r. unfold r, test_database.
  split; [|split].
  - by destruct db as [[? [?|?]]|].
  - by destruct db as [[? [?|?]]|].
  - intros db'. by destruct db as [[? [?|?]]|], db' as [[? [?|?]]|].
Qed.

Lemma foldl_create_nonempty (create : list Doc.t → Internship.t → list Doc.t)
    (col : list Doc.t) (models : list Internship.t) :
  (∀ c m, create c m ≠ []) → models ≠ [] → foldl create col models ≠ [].
Proof.
  intros Hc. revert col. induction models as [|m models IH]; [done|].
  intros col _. simpl. destruct models as [|m' models]; [apply Hc|].
  by apply IH.
Qed.

(** X25: seeding is idempotent when [create_document] never leaves the
    collection empty: a second call finds the postings of the first,
    reports them as already seeded and stores nothing. *)
Theorem X25_seed_idempotent
    (create_internship : list Doc.t → Internship.t → list Doc.t)
    (db : option (list Doc.t)) :
  (∀ c m, create_internship c m ≠ []) →
  let db1 := (seed_internships create_internship db).2 in
  (seed_internships create_internship db1).2 = db1
  ∧ (db ≠ None →
     (seed_internships create_internship db1).1
     = inr ("ok", "Internships already seeded")).
Proof.
  intros Hc db1. unfold db1. clear db1.
  destruct db as [col|]; [|by split].
  assert (∀ c, c ≠ [] →
            seed_internships create_internship (Some c)
            = (inr ("ok", "Internships already seeded"), Some c)) as Hseeded.
  { intros c Hne. unfold seed_internships. by destruct c. }
  assert (∃ col1, (seed_internships create_internship (Some col)).2 = Some col1
                  ∧ col1 ≠ []) as (col1 & -> & Hne).
  { unfold seed_internships. destruct (0 <? length col)%nat eqn:E.
    - exists col. split; [done|]. by destruct col.
    - exists (foldl create_internship col sample_models). split; [done|].
      by apply foldl_create_nonempty. }
  by rewrite Hseeded.
Qed.

Lemma X25_seed_idempotent_witness :
  (∀ c m, example_create_internship c m ≠ [])
  ∧ (seed_internships example_create_internship
       (seed_internships example_create_internship (Some [])).2).2
    = (seed_internships example_create_internship (Some [])).2.
Proof.
  assert (∀ c m, example_create_internship c m ≠ []) as H.
  { intros c m. unfold example_create_internship. by destruct c. }
  split; [exact H|].
  exact (proj1 (X25_seed_idempotent example_create_internship (Some []) H)).
Defined.
